(** * ytify backend: Redis service, health endpoint, and the audio error handler

    A shallow embedding of
    - [backend/src/services/redis.ts]  (module [redis]),
    - the [/health] route of [backend/src/main.ts]  (module [health]),
    - [src/lib/modules/audioErrorHandler.ts]  (module [audioErrorHandler]),
    followed by the properties proved about them.

    JavaScript numbers that count (attempt numbers, seconds, milliseconds,
    replies of the server) are integers in [Z]; strings are [string]. *)

From Stdlib Require Import ZArith String Ascii List Bool Lia DecimalString.
From stdpp Require Import base option gmap strings list fin_maps.

Local Open Scope string_scope.
Local Open Scope Z_scope.

(* ===================================================================== *)
(** * JavaScript values shared by the three modules *)
(* ===================================================================== *)

(** A thrown JavaScript [Error] object; only its message is observable. *)
Inductive JsError : Type :=
| Error (message : string).

(** [String(error)] for an [Error] object. *)
Definition String_of_error (e : JsError) : string :=
  match e with Error msg => "Error: " ++ msg end.

(** [String(n)] for an integral number. *)
Definition String_of_number (n : Z) : string :=
  NilZero.string_of_int (Z.to_int n).

(** Truthiness of a [number | undefined]: [undefined] and [0] are falsy. *)
Definition truthy (n : option Z) : bool :=
  match n with
  | Some v => negb (v =? 0)
  | None => false
  end.

(** [n || d] for a [number | undefined] operand [n]. *)
Definition or_default (n : option Z) (d : Z) : Z :=
  if truthy n then default d n else d.

(* ===================================================================== *)
(** * backend/src/services/redis.ts *)
(* ===================================================================== *)

Module redis.

(** ** Asynchronous computations

    An [async] function of the service runs against the world [W] behind
    the client (socket and server).  Awaiting a client call either yields a
    value or throws; in both cases the world may have changed.  Console
    output is not part of the model. *)

Section Async.
Context {W : Type}.

Definition Async (A : Type) : Type := W -> (JsError + A) * W.

Definition ret {A} (a : A) : Async A := fun w => (inr a, w).

Definition throw {A} (e : JsError) : Async A := fun w => (inl e, w).

Definition bind {A B} (c : Async A) (k : A -> Async B) : Async B :=
  fun w =>
    match c w with
    | (inr a, w') => k a w'
    | (inl e, w') => (inl e, w')
    end.

(** [try { body } catch (error) { handler }] *)
Definition try_catch {A} (body : Async A) (handler : JsError -> Async A)
  : Async A :=
  fun w =>
    match body w with
    | (inr a, w') => (inr a, w')
    | (inl e, w') => handler e w'
    end.
End Async.

Declare Scope async_scope.
Delimit Scope async_scope with async.
Notation "'let*' x ':=' 'await' c 'in' k" := (bind c (fun x => k))
  (at level 100, x name, c at next level, right associativity) : async_scope.
Notation "'await' c ;; k" := (bind c (fun _ => k))
  (at level 100, c at next level, right associativity) : async_scope.
Notation "'try' b 'catch' h" := (try_catch b h)
  (at level 100, b at next level, h at next level) : async_scope.

(** ** Types *)

Record RedisConfig : Type := {
  host : string;
  port : Z;
  password : option string;
  db : option Z;
  maxRetries : option Z;
  retryDelay : option Z
}.

(** The methods of the npm [redis] client that the service calls.  The
    client is a dependency of the repository, so its behaviour is a
    parameter: each method is an arbitrary computation over the world. *)
Record RedisClientType {W : Type} : Type := {
  client_get    : string -> Async (W:=W) (option string);
  client_setEx  : string -> Z -> string -> Async (W:=W) string;
  client_set    : string -> string -> Async (W:=W) (option string);
  client_del    : list string -> Async (W:=W) Z;
  client_keys   : string -> Async (W:=W) (list string);
  client_exists : string -> Async (W:=W) Z;
  client_ttl    : string -> Async (W:=W) Z;
  client_incr   : string -> Async (W:=W) Z;
  client_info   : string -> Async (W:=W) string;
  client_dbSize : Async (W:=W) Z
}.
Arguments RedisClientType W : clear implicits.

(** ** Redis client: module-level state *)

(** [let redisClient: RedisClientType | null] and [let isConnected]. *)
Record Module {W : Type} : Type := {
  redisClient : option (RedisClientType W);
  isConnected : bool
}.
Arguments Module W : clear implicits.

(** What [reconnectStrategy] returns: a delay in milliseconds or an
    [Error]. *)
Inductive Strategy : Type :=
| Delay (ms : Z)
| Abandon (e : JsError).

Definition reconnectStrategy (cfg : RedisConfig) (retries : Z) : Strategy :=
  let maxRetries := or_default (maxRetries cfg) 10 in
  if retries >? maxRetries then
    Abandon (Error "Max retries exceeded")
  else
    let delay := Z.min (retries * 100) 3000 in
    Delay delay.

(** [{ ...cfg, maxRetries }] *)
Definition with_maxRetries (cfg : RedisConfig) (n : option Z) : RedisConfig :=
  {| host := host cfg; port := port cfg; password := password cfg;
     db := db cfg; maxRetries := n; retryDelay := retryDelay cfg |}.

(** Modelled from the spec: the reconnect loop runs inside the client
    library, which is not part of the repository.  Under persistent
    connection failure it asks [reconnectStrategy] with the number of
    retries made so far (counted from [retries]); a number schedules one
    more reconnect attempt after that delay, an [Error] ends the loop for
    good.  [failures] bounds how many failures are observed.  The result
    is the delays of the reconnect attempts issued, and whether the loop
    was abandoned. *)
Fixpoint reconnects (cfg : RedisConfig) (failures : nat) (retries : Z)
  : list Z * bool :=
  match failures with
  | O => ([], false)
  | S failures' =>
      match reconnectStrategy cfg retries with
      | Delay ms =>
          let '(delays, abandoned) := reconnects cfg failures' (retries + 1) in
          (ms :: delays, abandoned)
      | Abandon _ => ([], true)
      end
  end.

(** The four listeners installed by [initRedis]. *)
Inductive ClientEvent : Type :=
| error_event (err : JsError)
| connect_event
| reconnecting_event
| ready_event.

Definition on {W} (ev : ClientEvent) (m : Module W) : Module W :=
  match ev with
  | error_event _      => {| redisClient := redisClient m; isConnected := false |}
  | connect_event      => {| redisClient := redisClient m; isConnected := true |}
  | reconnecting_event => {| redisClient := redisClient m; isConnected := false |}
  | ready_event        => {| redisClient := redisClient m; isConnected := true |}
  end.

(** [isRedisConnected()] *)
Definition isRedisConnected {W} (m : Module W) : bool :=
  isConnected m && bool_decide (redisClient m <> None).

(** The guard [!isRedisConnected() || !redisClient] that opens every cache
    operation. *)
Definition unavailable {W} (m : Module W) : bool :=
  negb (isRedisConnected m) || bool_decide (redisClient m = None).

(** A method call [redisClient.f(...)]: on [null] it is a [TypeError]. *)
Definition call {W A} (m : Module W)
    (f : RedisClientType W -> Async (W:=W) A) : Async (W:=W) A :=
  match redisClient m with
  | Some client => f client
  | None => throw (Error "TypeError: redisClient is null")
  end.

(** ** Cache operations *)

Section CacheOperations.
Context {W : Type}.
Variable m : Module W.
Local Open Scope async_scope.

Definition get (key : string) : Async (W:=W) (option string) :=
  if unavailable m then ret None
  else
    try call m (fun c => client_get c key)
    catch (fun error => ret None).

Definition set (key value : string) (ttlSeconds : option Z)
  : Async (W:=W) bool :=
  if unavailable m then ret false
  else
    try
      (await (if truthy ttlSeconds then
                await call m (fun c =>
                                client_setEx c key (default 0 ttlSeconds) value);;
                ret tt
              else
                await call m (fun c => client_set c key value);;
                ret tt);;
       ret true)
    catch (fun error => ret false).

Definition del (key : string) : Async (W:=W) bool :=
  if unavailable m then ret false
  else
    try (await call m (fun c => client_del c [key]);; ret true)
    catch (fun error => ret false).

Definition delPattern (pattern : string) : Async (W:=W) Z :=
  if unavailable m then ret 0
  else
    try
      (let* keys := await call m (fun c => client_keys c pattern) in
       if Z.of_nat (length keys) =? 0 then ret 0
       else
         await call m (fun c => client_del c keys);;
         ret (Z.of_nat (length keys)))
    catch (fun error => ret 0).

Definition exists_ (key : string) : Async (W:=W) bool :=
  if unavailable m then ret false
  else
    try (let* result := await call m (fun c => client_exists c key) in
         ret (result =? 1))
    catch (fun error => ret false).

Definition ttl (key : string) : Async (W:=W) Z :=
  if unavailable m then ret (-2)
  else
    try call m (fun c => client_ttl c key)
    catch (fun error => ret (-2)).

Definition incr (key : string) : Async (W:=W) Z :=
  if unavailable m then ret 0
  else
    try call m (fun c => client_incr c key)
    catch (fun error => ret 0).

(** [Record<string, string>] as the list of its properties, in order. *)
Definition getStats : Async (W:=W) (list (string * string)) :=
  if unavailable m then ret [("status", "disconnected")]
  else
    try
      (let* info := await call m (fun c => client_info c "stats") in
       let* dbSize := await call m (fun c => client_dbSize c) in
       ret [("status", "connected");
            ("dbSize", String_of_number dbSize);
            ("info", info)])
    catch (fun error =>
             ret [("status", "error"); ("error", String_of_error error)]).
End CacheOperations.

(** ** Two concrete services *)

(** A client whose socket is closed: every method throws. *)
Definition closed_client : RedisClientType unit :=
  let closed {A} : Async (W:=unit) A := throw (Error "The client is closed") in
  {| client_get := fun _ => closed;
     client_setEx := fun _ _ _ => closed;
     client_set := fun _ _ => closed;
     client_del := fun _ => closed;
     client_keys := fun _ => closed;
     client_exists := fun _ => closed;
     client_ttl := fun _ => closed;
     client_incr := fun _ => closed;
     client_info := fun _ => closed;
     client_dbSize := closed |}.

(** The flag still says connected although the socket is closed. *)
Definition stale : Module unit :=
  {| redisClient := Some closed_client; isConnected := true |}.

(** The service before [initRedis], or after it failed. *)
Definition uninitialised : Module unit :=
  {| redisClient := None; isConnected := false |}.

(** A configuration without [maxRetries], as [initRedis] builds one when
    called without argument, and the same with [maxRetries: 0]. *)
Definition default_config : RedisConfig :=
  {| host := "localhost"; port := 6379; password := None; db := Some 0;
     maxRetries := None; retryDelay := None |}.

Definition zero_retries_config : RedisConfig :=
  with_maxRetries default_config (Some 0).

(** ** Vocabulary for the properties of the operations *)

(** The computation throws when started in world [w]. *)
Definition throws {W A} (c : Async (W:=W) A) (w : W) : Prop :=
  exists e w', c w = (inl e, w').

(** The computation started in world [w] returns [a] (in some world). *)
Definition answers {W A} (c : Async (W:=W) A) (w : W) (a : A) : Prop :=
  exists w', c w = (inr a, w').

(** The computation returns a value from every world. *)
Definition non_throwing {W A} (c : Async (W:=W) A) : Prop :=
  forall w, exists a w', c w = (inr a, w').

End redis.

(* ===================================================================== *)
(** * The key-value server behind the client *)
(* ===================================================================== *)

Module server.

(** Modelled from the spec: the Redis server is not part of the
    repository; the spec lists the wire operations the service consumes
    (GET, SET/SETEX, DEL, KEYS, EXISTS, TTL, INCR, INFO, DBSIZE) with
    "standard key-value store command semantics".  [stringmatch] is the
    glob matching of KEYS: [*] matches any run of characters, [?] exactly
    one, a backslash quotes the next character, and [[...]] is a character
    class with [^] negation and [a-z] ranges. *)
Fixpoint stringmatch (pattern : string) : string -> bool :=
  match pattern with
  | EmptyString => fun s => bool_decide (s = EmptyString)
  | String "*" p =>
      fix star (s : string) : bool :=
        stringmatch p s ||
        match s with
        | EmptyString => false
        | String _ s' => star s'
        end
  | String "?" p =>
      fun s => match s with
               | EmptyString => false
               | String _ s' => stringmatch p s'
               end
  | String "\" (String c p) =>
      fun s => match s with
               | EmptyString => false
               | String a s' => Ascii.eqb a c && stringmatch p s'
               end
  | String "[" p =>
      fun s =>
        match s with
        | EmptyString => false
        | String a s' =>
            let negated := match p with String "^" _ => true | _ => false end in
            (fix class (q : string) (found : bool) {struct q} : bool :=
               match q with
               | EmptyString => false
               | String "]" q' => xorb negated found && stringmatch q' s'
               | String "\" (String c q') =>
                   class q' (found || Ascii.eqb a c)
               | String lo (String "-" (String hi q')) =>
                   let x := nat_of_ascii a in
                   let l := Nat.min (nat_of_ascii lo) (nat_of_ascii hi) in
                   let h := Nat.max (nat_of_ascii lo) (nat_of_ascii hi) in
                   class q' (found || (Nat.leb l x && Nat.leb x h))
               | String c q' => class q' (found || Ascii.eqb a c)
               end)
              (match p with String "^" p' => p' | _ => p end) false
        end
  | String c p =>
      fun s => match s with
               | EmptyString => false
               | String a s' => Ascii.eqb a c && stringmatch p s'
               end
  end.

(** A stored string with its optional absolute expiry time (Unix time in
    milliseconds). *)
Record Entry : Type := {
  value : string;
  expireAt : option Z
}.

(** The server: its keyspace and its clock (milliseconds). *)
Record Server : Type := {
  keyspace : gmap string Entry;
  now : Z
}.

(** Time passing on the server's clock. *)
Definition elapse (ms : Z) (s : Server) : Server :=
  {| keyspace := keyspace s; now := now s + ms |}.

(** A key is expired once the clock is past its expiry time. *)
Definition expired (clock : Z) (e : Entry) : bool :=
  match expireAt e with
  | Some when => when <? clock
  | None => false
  end.

(** Reading a key: expired entries are invisible. *)
Definition lookupKey (s : Server) (key : string) : option Entry :=
  match keyspace s !! key with
  | Some e => if expired (now s) e then None else Some e
  | None => None
  end.

Definition write (s : Server) (key : string) (e : Entry) : Server :=
  {| keyspace := <[key := e]> (keyspace s); now := now s |}.

Definition GET (key : string) : redis.Async (W:=Server) (option string) :=
  fun s => (inr (value <$> lookupKey s key), s).

Definition SET (key v : string) : redis.Async (W:=Server) (option string) :=
  fun s => (inr (Some "OK"), write s key {| value := v; expireAt := None |}).

Definition SETEX (key : string) (seconds : Z) (v : string)
  : redis.Async (W:=Server) string :=
  fun s =>
    if seconds <=? 0 then
      (inl (Error "ERR invalid expire time in 'setex' command"), s)
    else
      (inr "OK",
       write s key {| value := v; expireAt := Some (now s + seconds * 1000) |}).

(** DEL removes each listed key and replies with how many were there. *)
Fixpoint del_keys (clock : Z) (keys : list string) (ks : gmap string Entry)
  : gmap string Entry * Z :=
  match keys with
  | [] => (ks, 0)
  | key :: rest =>
      let hit := match ks !! key with
                 | Some e => if expired clock e then 0 else 1
                 | None => 0
                 end in
      let '(ks', n) := del_keys clock rest (delete key ks) in
      (ks', hit + n)
  end.

Definition DEL (keys : list string) : redis.Async (W:=Server) Z :=
  fun s =>
    let '(ks, n) := del_keys (now s) keys (keyspace s) in
    (inr n, {| keyspace := ks; now := now s |}).

(** KEYS replies with every unexpired key that matches the pattern. *)
Definition matching (clock : Z) (pattern : string) (kv : string * Entry)
  : bool :=
  negb (expired clock kv.2) && stringmatch pattern kv.1.

Definition keys_reply (s : Server) (pattern : string) : list string :=
  List.map fst
    (List.filter (matching (now s) pattern) (map_to_list (keyspace s))).

Definition KEYS (pattern : string) : redis.Async (W:=Server) (list string) :=
  fun s => (inr (keys_reply s pattern), s).

Definition EXISTS (key : string) : redis.Async (W:=Server) Z :=
  fun s => (inr match lookupKey s key with Some _ => 1 | None => 0 end, s).

(** TTL: -2 for a missing key, -1 for a key without expiry, otherwise the
    remaining time rounded to the nearest second. *)
Definition TTL (key : string) : redis.Async (W:=Server) Z :=
  fun s =>
    (inr match lookupKey s key with
         | None => -2
         | Some e =>
             match expireAt e with
             | None => -1
             | Some when => (when - now s + 500) / 1000
             end
         end, s).

(** INCR on a missing key starts from 0; a value that is not a decimal
    integer is an error; the expiry of the key is kept. *)
Definition INCR (key : string) : redis.Async (W:=Server) Z :=
  fun s =>
    match lookupKey s key with
    | None =>
        (inr 1, write s key {| value := "1"; expireAt := None |})
    | Some e =>
        match NilEmpty.int_of_string (value e) with
        | Some n =>
            let n' := Z.of_int n + 1 in
            (inr n',
             write s key {| value := String_of_number n';
                            expireAt := expireAt e |})
        | None =>
            (inl (Error "ERR value is not an integer or out of range"), s)
        end
    end.

Definition INFO (section : string) : redis.Async (W:=Server) string :=
  fun s => (inr ("# " ++ section), s).

Definition DBSIZE : redis.Async (W:=Server) Z :=
  fun s => (inr (Z.of_nat (size (keyspace s))), s).

(** A client whose socket is up: every method is the server command. *)
Definition client : redis.RedisClientType Server := {|
  redis.client_get := GET;
  redis.client_setEx := SETEX;
  redis.client_set := SET;
  redis.client_del := DEL;
  redis.client_keys := KEYS;
  redis.client_exists := EXISTS;
  redis.client_ttl := TTL;
  redis.client_incr := INCR;
  redis.client_info := INFO;
  redis.client_dbSize := DBSIZE
|}.

(** A client whose connection drops in the middle of a bulk DEL: the first
    key has been removed when the call fails. *)
Definition interrupted_DEL (keys : list string) : redis.Async (W:=Server) Z :=
  fun s =>
    (inl (Error "Socket closed unexpectedly"),
     {| keyspace := (del_keys (now s) (take 1 keys) (keyspace s)).1;
        now := now s |}).

Definition dropping_client : redis.RedisClientType Server := {|
  redis.client_get := GET;
  redis.client_setEx := SETEX;
  redis.client_set := SET;
  redis.client_del := interrupted_DEL;
  redis.client_keys := KEYS;
  redis.client_exists := EXISTS;
  redis.client_ttl := TTL;
  redis.client_incr := INCR;
  redis.client_info := INFO;
  redis.client_dbSize := DBSIZE
|}.

(** The service after [initRedis] succeeded and the client is ready. *)
Definition ready : redis.Module Server :=
  {| redis.redisClient := Some client; redis.isConnected := true |}.

(** A server with no keys at clock [t]. *)
Definition empty_at (t : Z) : Server := {| keyspace := ∅; now := t |}.

(** A service whose client loses the connection during bulk deletes. *)
Definition dropping : redis.Module Server :=
  {| redis.redisClient := Some dropping_client; redis.isConnected := true |}.

(** A server at clock 0 holding a session that expires after a minute and
    two cached pages. *)
Definition sample : Server :=
  write (write (write (empty_at 0)
                  "session" {| value := "s"; expireAt := Some 60000 |})
           "page:1" {| value := "p1"; expireAt := None |})
    "page:2" {| value := "p2"; expireAt := None |}.

(** [key] is a visible key of the server that the glob [pattern] matches. *)
Definition matches (s : Server) (pattern key : string) : Prop :=
  is_Some (lookupKey s key) /\ stringmatch pattern key = true.

End server.

(* ===================================================================== *)
(** * backend/src/services/redis.ts: connection life cycle *)
(* ===================================================================== *)

Module lifecycle.
Import redis.

(** The fields of the application [config] that [initRedis] reads. *)
Record AppConfig : Type := {
  redisHost : string;
  redisPort : Z;
  redisPassword : option string;
  redisDb : option Z;
  redisEnabled : bool
}.

(** The options object handed to [createClient]. *)
Record ClientOptions : Type := {
  socket_host : string;
  socket_port : Z;
  socket_reconnectStrategy : Z -> Strategy;
  options_password : option string;
  database : Z
}.

(** The client object: its commands, and [connect] and [quit], which may
    emit events to the listeners while they run and then resolve or
    reject.  The client library is a dependency, so all of it is a
    parameter. *)
Record Connection {W : Type} : Type := {
  commands : RedisClientType W;
  connect : W -> (JsError + unit) * list ClientEvent * W;
  quit : W -> (JsError + string) * list ClientEvent * W
}.
Arguments Connection W : clear implicits.

(** The two module-level variables, with the whole client object in
    [redisClient]. *)
Record Service {W : Type} : Type := {
  client : option (Connection W);
  connected : bool
}.
Arguments Service W : clear implicits.

(** What the cache operations see of the service. *)
Definition module {W} (s : Service W) : Module W :=
  {| redisClient := commands <$> client s; isConnected := connected s |}.

(** [let redisClient = null; let isConnected = false;] *)
Definition initial {W} : Service W := {| client := None; connected := false |}.

(** One event delivered to the listeners installed by [initRedis]. *)
Definition notify {W} (s : Service W) (ev : ClientEvent) : Service W :=
  {| client := client s; connected := isConnected (on ev (module s)) |}.

Definition emit {W} (events : list ClientEvent) (s : Service W) : Service W :=
  fold_left notify events s.

(** [redisConfig || { host: config.redisHost, ... }] *)
Definition resolve (config : AppConfig) (redisConfig : option RedisConfig)
  : RedisConfig :=
  match redisConfig with
  | Some cfg => cfg
  | None => {| host := redisHost config;
               port := redisPort config;
               password := redisPassword config;
               db := redisDb config;
               maxRetries := None;
               retryDelay := None |}
  end.

Definition options (cfg : RedisConfig) : ClientOptions :=
  {| socket_host := host cfg;
     socket_port := port cfg;
     socket_reconnectStrategy := reconnectStrategy cfg;
     options_password := password cfg;
     database := or_default (db cfg) 0 |}.

(** [initRedis]: [createClient] either throws or yields the client; the
    assignment to [redisClient] precedes [connect], whose events reach the
    listeners; the [catch] block resets both variables.  The promise never
    rejects, so the result is the new service and world. *)
Definition initRedis {W} (config : AppConfig)
    (createClient : ClientOptions -> JsError + Connection W)
    (redisConfig : option RedisConfig) (s : Service W) (w : W)
  : Service W * W :=
  let cfg := resolve config redisConfig in
  match createClient (options cfg) with
  | inl error => ({| client := None; connected := false |}, w)
  | inr c =>
      let s1 := {| client := Some c; connected := connected s |} in
      match connect c w with
      | (inr _, events, w') => (emit events s1, w')
      | (inl error, events, w') => ({| client := None; connected := false |}, w')
      end
  end.

(** [closeRedis]: nothing protects the [await redisClient.quit()], so a
    rejection leaves the function before the two assignments. *)
Definition closeRedis {W} (s : Service W) (w : W)
  : (JsError + unit) * Service W * W :=
  match client s with
  | Some c =>
      match quit c w with
      | (inr _, events, w') =>
          (inr tt, {| client := None; connected := false |}, w')
      | (inl error, events, w') => (inl error, emit events s, w')
      end
  | None => (inr tt, s, w)
  end.

(** The Redis step of [main()]: [initRedis()] only when the configuration
    enables Redis. *)
Definition main_redis {W} (config : AppConfig)
    (createClient : ClientOptions -> JsError + Connection W) (w : W)
  : Service W * W :=
  if redisEnabled config then initRedis config createClient None initial w
  else (initial, w).

(** ** Concrete clients in front of the modelled server *)

(** A client that connects at once. *)
Definition up : Connection server.Server :=
  {| commands := server.client;
     connect := fun s => (inr tt, [connect_event; ready_event], s);
     quit := fun s => (inr "OK", [], s) |}.

(** A client whose server is unreachable: after the retries are used up
    [connect] rejects, and so does [quit]. *)
Definition unreachable : Connection server.Server :=
  {| commands := server.client;
     connect := fun s =>
       (inl (Error "Max retries exceeded"),
        [error_event (Error "ECONNREFUSED"); reconnecting_event;
         error_event (Error "ECONNREFUSED")], s);
     quit := fun s => (inl (Error "The client is closed"), [], s) |}.

Definition app_config : AppConfig :=
  {| redisHost := "localhost"; redisPort := 6379; redisPassword := None;
     redisDb := Some 0; redisEnabled := true |}.

End lifecycle.

(* ===================================================================== *)
(** * backend/src/main.ts: the health check endpoint *)
(* ===================================================================== *)

Module health.

(** The JSON body of [GET /health]. *)
Record Body : Type := {
  status : string;
  storage : string;
  redis : string;
  timestamp : string
}.

(** [app.get("/health", ...)]: [healthy] is the answer of [isHealthy()] of
    the storage service, [m] the state of the Redis module and [date] the
    text of [new Date().toISOString()].  The result is the body and the
    HTTP status code passed to [c.json]. *)
Definition health {W} (healthy : bool) (m : redis.Module W) (date : string)
  : Body * Z :=
  let redisHealthy := redis.isRedisConnected m in
  ({| status := if healthy && redisHealthy then "ok" else "degraded";
      storage := if healthy then "ok" else "unhealthy";
      redis := if redisHealthy then "connected" else "disconnected";
      timestamp := date |},
   if healthy then 200 else 503).

End health.

(* ===================================================================== *)
(** * src/lib/modules/audioErrorHandler.ts *)
(* ===================================================================== *)

Module js.

(** [s.endsWith(suffix)] *)
Definition endsWith (s suffix : string) : bool :=
  let n := String.length s in
  let k := String.length suffix in
  Nat.leb k n && String.eqb (substring (n - k) k s) suffix.

(** The first occurrence of [pat] in [s]: the text before it and the text
    after it. *)
Fixpoint split_first (pat s : string) : option (string * string) :=
  if String.prefix pat s then
    Some (EmptyString, substring (String.length pat)
                                 (String.length s - String.length pat) s)
  else
    match s with
    | EmptyString => None
    | String c s' =>
        match split_first pat s' with
        | Some (before, after) => Some (String c before, after)
        | None => None
        end
    end.

(** [GetSubstitution] for a string pattern (no capture groups): [$$], [$&],
    [$`] and [$'] are expanded, any other [$] is literal. *)
Fixpoint GetSubstitution (matched before after replacement : string)
  : string :=
  match replacement with
  | EmptyString => EmptyString
  | String "$" (String "$" r) =>
      String "$" (GetSubstitution matched before after r)
  | String "$" (String "&" r) =>
      (matched ++ GetSubstitution matched before after r)%string
  | String "$" (String "`" r) =>
      (before ++ GetSubstitution matched before after r)%string
  | String "$" (String "'" r) =>
      (after ++ GetSubstitution matched before after r)%string
  | String c r => String c (GetSubstitution matched before after r)
  end.

(** [s.replace(pat, replacement)] with a string pattern: only the first
    occurrence is replaced. *)
Definition replace (s pat replacement : string) : string :=
  match split_first pat s with
  | Some (before, after) =>
      (before ++ GetSubstitution pat before after replacement ++ after)%string
  | None => s
  end.

(** Truthiness of a [string | undefined]. *)
Definition truthy (s : option string) : bool :=
  match s with
  | Some v => negb (String.eqb v EmptyString)
  | None => false
  end.

End js.

Module audioErrorHandler.

(** The part of [HTMLAudioElement | HTMLVideoElement] the handler touches;
    [retried] is [dataset.retried]. *)
Record HTMLMediaElement : Type := {
  src : string;
  paused : bool;
  retried : option string
}.

(** The fields of [playerStore] the handler reads or writes. *)
Record PlayerStore : Type := {
  proxy : option string;
  isWatching : bool;
  playbackState : string;
  status : string
}.

(** The field of the app store the handler writes. *)
Record Store : Type := {
  snackbar : option string
}.

Record State : Type := {
  audio : HTMLMediaElement;
  playerStore : PlayerStore;
  store : Store;
  location_href : string
}.

(** How a call ends, and the state it leaves. *)
Inductive Completion : Type :=
| Returns (st : State)
| Throws (st : State).

Definition state_of (c : Completion) : State :=
  match c with Returns st | Throws st => st end.

Definition pause (a : HTMLMediaElement) : HTMLMediaElement :=
  {| src := src a; paused := true; retried := retried a |}.

(** [setPlayerStore('playbackState', 'none')] *)
Definition setPlaybackState (v : string) (st : State) : State :=
  {| audio := audio st;
     playerStore := {| proxy := proxy (playerStore st);
                       isWatching := isWatching (playerStore st);
                       playbackState := v;
                       status := status (playerStore st) |};
     store := store st;
     location_href := location_href st |}.

(** [setPlayerStore({ playbackState: 'none', status: 'Streaming Failed' })] *)
Definition setStreamingFailed (st : State) : State :=
  {| audio := audio st;
     playerStore := {| proxy := proxy (playerStore st);
                       isWatching := isWatching (playerStore st);
                       playbackState := "none";
                       status := "Streaming Failed" |};
     store := store st;
     location_href := location_href st |}.

(** [setStore('snackbar', v)] *)
Definition setSnackbar (v : string) (st : State) : State :=
  {| audio := audio st;
     playerStore := playerStore st;
     store := {| snackbar := Some v |};
     location_href := location_href st |}.

Definition setAudio (a : HTMLMediaElement) (st : State) : State :=
  {| audio := a;
     playerStore := playerStore st;
     store := store st;
     location_href := location_href st |}.

Section Handler.
(** [new URL(s).origin]; [None] when the constructor throws.  The URL
    parser belongs to the platform, so it is a parameter. *)
Variable URL_origin : string -> option string.

(** The default export.  The file carries both sides of an unresolved
    merge above line 31; lines 31-67 use [proxy], which only the second
    side binds ([const { proxy } = playerStore]), so that side is the one
    embedded. *)
Definition handler (st0 : State) (prefetch : string) : Completion :=
  let st := setAudio (pause (audio st0)) st0 in
  let proxy := proxy (playerStore st) in
  let audio_src := src (audio st) in
  if String.eqb audio_src EmptyString || String.eqb audio_src (location_href st)
  then Returns st
  else
    match URL_origin audio_src with
    | None => Throws st
    | Some origin =>
        let isFallback := js.endsWith audio_src "&fallback" in
        let isAlreadyProxy :=
          bool_decide (Some origin = proxy)
          || bool_decide (retried (audio st) = Some "true") in
        if isFallback then
          if negb (isWatching (playerStore st)) && String.eqb prefetch EmptyString
          then Returns (setPlaybackState "none"
                          (setSnackbar "Error 403 : Unauthenticated Stream" st))
          else Returns st
        else if negb (js.truthy proxy) || isAlreadyProxy then
          if String.eqb prefetch EmptyString
          then Returns (setSnackbar "Streaming Failed" (setStreamingFailed st))
          else Returns st
        else
          let newSrc := js.replace audio_src origin (default EmptyString proxy) in
          if negb (String.eqb newSrc audio_src) then
            Returns (setAudio {| src := newSrc;
                                 paused := paused (audio st);
                                 retried := Some "true" |} st)
          else if String.eqb prefetch EmptyString then
            Returns (setStreamingFailed st)
          else Returns st
    end.

(** Whether a call replaced [audio.src]. *)
Definition rewrote (before after : State) : bool :=
  negb (String.eqb (src (audio before)) (src (audio after))).

(** One error event on the element: the rest of the application may have
    changed the stores and the location since the previous one, but the
    element is the handler's alone between two events. *)
Record Invocation : Type := {
  prefetch : string;
  interference : State -> State
}.

Definition interfere (i : Invocation) (st : State) : State :=
  let e := interference i st in
  {| audio := audio st;
     playerStore := playerStore e;
     store := store e;
     location_href := location_href e |}.

(** The handler run on a sequence of error events; the result is the
    final state and the number of calls that replaced [audio.src]. *)
Fixpoint run (calls : list Invocation) (st : State) : State * nat :=
  match calls with
  | [] => (st, 0%nat)
  | i :: rest =>
      let st1 := interfere i st in
      let st2 := state_of (handler st1 (prefetch i)) in
      let '(st3, n) := run rest st2 in
      (st3, ((if rewrote st1 st2 then 1 else 0) + n)%nat)
  end.
End Handler.

(** ** A concrete scene: a CDN stream, a proxy, and a page served from the
    proxy origin at the same path *)

Definition origins (s : string) : option string :=
  if String.eqb s "https://cdn.example/a.mp3" then Some "https://cdn.example"
  else if String.eqb s "https://proxy.example/a.mp3"
       then Some "https://proxy.example"
  else if String.eqb s "https://cdn.example/a.mp3&fallback"
       then Some "https://cdn.example"
  else None.

Definition playing (audio_src : string) (flag : option string) : State :=
  {| audio := {| src := audio_src; paused := false; retried := flag |};
     playerStore := {| proxy := Some "https://proxy.example";
                       isWatching := false;
                       playbackState := "playing";
                       status := EmptyString |};
     store := {| snackbar := None |};
     location_href := "https://proxy.example/a.mp3" |}.

(** The element after its first error, and after a second one. *)
Definition first_error : State :=
  state_of (handler origins (playing "https://cdn.example/a.mp3" None) EmptyString).

Definition second_error : State :=
  state_of (handler origins first_error EmptyString).

(** An element that was retried earlier and now plays a fallback stream. *)
Definition fallback_error : State :=
  state_of (handler origins
              (playing "https://cdn.example/a.mp3&fallback" (Some "true")) EmptyString).

End audioErrorHandler.

(* ===================================================================== *)
(** * Literal key prefixes *)
(* ===================================================================== *)

Module patterns.

(** The characters with a meaning of their own in a glob pattern. *)
Definition special (c : ascii) : bool :=
  Ascii.eqb c "*" || Ascii.eqb c "?" || Ascii.eqb c "[" || Ascii.eqb c "\".

(** A text without special characters, such as the prefix ["ytfy:cache:"]
    of a pattern ["ytfy:cache:*"]. *)
Fixpoint literal (p : string) : bool :=
  match p with
  | EmptyString => true
  | String c p' => negb (special c) && literal p'
  end.

(** A replacement text in which [String.prototype.replace] finds nothing
    to expand: it has no dollar sign. *)
Fixpoint dollar_free (p : string) : bool :=
  match p with
  | EmptyString => true
  | String c p' => negb (Ascii.eqb c "$") && dollar_free p'
  end.

End patterns.

(* ===================================================================== *)
(** * Properties of the Redis service *)
(* ===================================================================== *)

Module redis_facts.
Import redis.

Section Generic.
Context {W : Type}.
Implicit Types (m : Module W) (w : W).

Lemma try_catch_total {A} (body : Async (W:=W) A) handler :
  (forall e, non_throwing (handler e)) ->
  non_throwing (try_catch body handler).
Proof.
  intros Hh w. unfold try_catch.
  destruct (body w) as [[e|a] w1]; [apply Hh | eauto].
Qed.

Lemma ret_total {A} (a : A) : non_throwing (W:=W) (ret a).
Proof. intros w. unfold ret. eauto. Qed.

Lemma unavailable_disconnected m :
  isRedisConnected m = false -> unavailable m = true.
Proof. intros H. unfold unavailable. now rewrite H. Qed.

Lemma available_client m :
  unavailable m = false ->
  exists c, redisClient m = Some c /\ isConnected m = true.
Proof.
  unfold unavailable, isRedisConnected.
  destruct (redisClient m) as [c|], (isConnected m); simpl;
    try discriminate; eauto.
Qed.

End Generic.

(** Every operation is a guard followed by a [try] whose handler returns. *)
Ltac guarded_try :=
  intros w; match goal with
  | |- context [unavailable ?m] =>
      destruct (unavailable m); [apply ret_total | apply try_catch_total; intros; apply ret_total]
  end.

Lemma get_non_throwing {W} (m : Module W) key : non_throwing (get m key).
Proof. unfold get. guarded_try. Qed.

Lemma set_non_throwing {W} (m : Module W) key value ttlSeconds :
  non_throwing (set m key value ttlSeconds).
Proof. unfold set. guarded_try. Qed.

Lemma del_non_throwing {W} (m : Module W) key : non_throwing (del m key).
Proof. unfold del. guarded_try. Qed.

Lemma delPattern_non_throwing {W} (m : Module W) pattern :
  non_throwing (delPattern m pattern).
Proof. unfold delPattern. guarded_try. Qed.

Lemma exists_non_throwing {W} (m : Module W) key :
  non_throwing (exists_ m key).
Proof. unfold exists_. guarded_try. Qed.

Lemma ttl_non_throwing {W} (m : Module W) key : non_throwing (ttl m key).
Proof. unfold ttl. guarded_try. Qed.

Lemma incr_non_throwing {W} (m : Module W) key : non_throwing (incr m key).
Proof. unfold incr. guarded_try. Qed.

Lemma getStats_non_throwing {W} (m : Module W) : non_throwing (getStats m).
Proof. unfold getStats. guarded_try. Qed.

(** A disconnected service answers from the guard, leaving the world
    alone. *)
Lemma disconnected_sentinels {W} (m : Module W) key value ttlSeconds pattern w :
  isRedisConnected m = false ->
  get m key w = (inr None, w) /\
  set m key value ttlSeconds w = (inr false, w) /\
  del m key w = (inr false, w) /\
  delPattern m pattern w = (inr 0, w) /\
  exists_ m key w = (inr false, w) /\
  ttl m key w = (inr (-2), w) /\
  incr m key w = (inr 0, w) /\
  getStats m w = (inr [("status", "disconnected")], w).
Proof.
  intros H%unavailable_disconnected.
  unfold get, set, del, delPattern, exists_, ttl, incr, getStats.
  rewrite H. repeat split; reflexivity.
Qed.

(** In an operation [if unavailable m then ret s else try body catch ...],
    a throwing [body] is answered by the handler. *)
Ltac caught Hc :=
  unfold get, set, del, delPattern, exists_, ttl, incr;
  match goal with
  | |- context [unavailable ?m] =>
      destruct (unavailable m); [eexists; reflexivity |]
  end;
  unfold call; rewrite Hc; unfold answers, try_catch, bind, ret.

Section Caught.
Context {W : Type} (m : Module W) (c : RedisClientType W).
Hypothesis Hc : redisClient m = Some c.

Lemma get_caught key w :
  throws (client_get c key) w -> answers (get m key) w None.
Proof. intros (e & w1 & He). caught Hc. rewrite He. eauto. Qed.

Lemma set_caught key value ttlSeconds w :
  truthy ttlSeconds = false ->
  throws (client_set c key value) w ->
  answers (set m key value ttlSeconds) w false.
Proof.
  intros Ht (e & w1 & He). caught Hc. rewrite Ht, He. eauto.
Qed.

Lemma setEx_caught key value t w :
  t <> 0 ->
  throws (client_setEx c key t value) w ->
  answers (set m key value (Some t)) w false.
Proof.
  intros Ht (e & w1 & He). caught Hc. simpl.
  destruct (Z.eqb_spec t 0) as [->|_]; [easy |]. simpl.
  rewrite He. eauto.
Qed.

Lemma del_caught key w :
  throws (client_del c [key]) w -> answers (del m key) w false.
Proof. intros (e & w1 & He). caught Hc. rewrite He. eauto. Qed.

Lemma delPattern_keys_caught pattern w :
  throws (client_keys c pattern) w -> answers (delPattern m pattern) w 0.
Proof. intros (e & w1 & He). caught Hc. rewrite He. eauto. Qed.

Lemma delPattern_del_caught pattern keys w w1 :
  client_keys c pattern w = (inr keys, w1) ->
  throws (client_del c keys) w1 ->
  answers (delPattern m pattern) w 0.
Proof.
  intros Hk (e & w2 & He). caught Hc. rewrite Hk.
  destruct (Z.of_nat (length keys) =? 0); [eauto |].
  rewrite He. eauto.
Qed.

Lemma exists_caught key w :
  throws (client_exists c key) w -> answers (exists_ m key) w false.
Proof. intros (e & w1 & He). caught Hc. rewrite He. eauto. Qed.

Lemma ttl_caught key w :
  throws (client_ttl c key) w -> answers (ttl m key) w (-2).
Proof. intros (e & w1 & He). caught Hc. rewrite He. eauto. Qed.

Lemma incr_caught key w :
  throws (client_incr c key) w -> answers (incr m key) w 0.
Proof. intros (e & w1 & He). caught Hc. rewrite He. eauto. Qed.

Lemma getStats_info_caught w e w1 :
  isRedisConnected m = true ->
  client_info c "stats" w = (inl e, w1) ->
  getStats m w =
    (inr [("status", "error"); ("error", String_of_error e)], w1).
Proof.
  intros Hr He. unfold getStats, unavailable. rewrite Hr, Hc. simpl.
  unfold call. rewrite Hc. unfold try_catch, bind. now rewrite He.
Qed.

Lemma getStats_dbSize_caught w info w1 e w2 :
  isRedisConnected m = true ->
  client_info c "stats" w = (inr info, w1) ->
  client_dbSize c w1 = (inl e, w2) ->
  getStats m w =
    (inr [("status", "error"); ("error", String_of_error e)], w2).
Proof.
  intros Hr Hi He. unfold getStats, unavailable. rewrite Hr, Hc. simpl.
  unfold call. rewrite Hc. unfold try_catch, bind. now rewrite Hi, He.
Qed.
End Caught.

(** C1.  Every cache operation of the service (get, set, del, delPattern,
    exists, ttl, incr, getStats) returns from every world, whatever the
    client does; when the service is not connected, and when the client call
    it makes throws, the operation returns its sentinel: get null, set
    false, del false, delPattern 0, exists false, ttl -2, incr 0 (getStats
    a record whose status is "disconnected", respectively "error"). *)
Theorem cache_operations_non_throwing {W} (m : Module W)
    (key value pattern : string) (ttlSeconds : option Z) :
  (non_throwing (get m key) /\
   non_throwing (set m key value ttlSeconds) /\
   non_throwing (del m key) /\
   non_throwing (delPattern m pattern) /\
   non_throwing (exists_ m key) /\
   non_throwing (ttl m key) /\
   non_throwing (incr m key) /\
   non_throwing (getStats m)) /\
  (isRedisConnected m = false ->
   forall w,
     get m key w = (inr None, w) /\
     set m key value ttlSeconds w = (inr false, w) /\
     del m key w = (inr false, w) /\
     delPattern m pattern w = (inr 0, w) /\
     exists_ m key w = (inr false, w) /\
     ttl m key w = (inr (-2), w) /\
     incr m key w = (inr 0, w) /\
     getStats m w = (inr [("status", "disconnected")], w)) /\
  (forall c w,
     redisClient m = Some c ->
     (throws (client_get c key) w -> answers (get m key) w None) /\
     (truthy ttlSeconds = false -> throws (client_set c key value) w ->
      answers (set m key value ttlSeconds) w false) /\
     (forall t, ttlSeconds = Some t -> t <> 0 ->
                throws (client_setEx c key t value) w ->
                answers (set m key value ttlSeconds) w false) /\
     (throws (client_del c [key]) w -> answers (del m key) w false) /\
     (throws (client_keys c pattern) w ->
      answers (delPattern m pattern) w 0) /\
     (forall keys w1, client_keys c pattern w = (inr keys, w1) ->
                      throws (client_del c keys) w1 ->
                      answers (delPattern m pattern) w 0) /\
     (throws (client_exists c key) w -> answers (exists_ m key) w false) /\
     (throws (client_ttl c key) w -> answers (ttl m key) w (-2)) /\
     (throws (client_incr c key) w -> answers (incr m key) w 0) /\
     (isRedisConnected m = true ->
      forall e w1, client_info c "stats" w = (inl e, w1) ->
        getStats m w =
          (inr [("status", "error"); ("error", String_of_error e)], w1)) /\
     (isRedisConnected m = true ->
      forall info w1 e w2,
        client_info c "stats" w = (inr info, w1) ->
        client_dbSize c w1 = (inl e, w2) ->
        getStats m w =
          (inr [("status", "error"); ("error", String_of_error e)], w2))).
Proof.
  split; [| split].
  - repeat split;
      auto using get_non_throwing, set_non_throwing, del_non_throwing,
        delPattern_non_throwing, exists_non_throwing, ttl_non_throwing,
        incr_non_throwing, getStats_non_throwing.
  - intros H w. now apply disconnected_sentinels.
  - intros c w Hc. repeat split.
    + now apply get_caught.
    + now apply set_caught.
    + intros t -> Ht. now apply setEx_caught.
    + now apply del_caught.
    + now apply delPattern_keys_caught.
    + intros keys w1. now apply delPattern_del_caught.
    + now apply exists_caught.
    + now apply ttl_caught.
    + now apply incr_caught.
    + intros Hr e w1. now apply getStats_info_caught.
    + intros Hr info w1 e w2. now apply getStats_dbSize_caught.
Qed.

Lemma cache_operations_non_throwing_witness :
  get uninitialised "k" tt = (inr None, tt) /\
  answers (set stale "k" "v" (Some 60)) tt false /\
  answers (delPattern stale "k*") tt 0.
Proof.
  destruct (cache_operations_non_throwing uninitialised "k" "v" "k*" (Some 60))
    as (_ & Hdown & _).
  destruct (Hdown eq_refl tt) as (Hget & _).
  destruct (cache_operations_non_throwing stale "k" "v" "k*" (Some 60))
    as (_ & _ & Hthrow).
  destruct (Hthrow closed_client tt eq_refl)
    as (_ & _ & Hset & _ & Hkeys & _).
  split; [exact Hget |]. split.
  - apply (Hset 60 eq_refl); [discriminate |].
    exists (Error "The client is closed"), tt. reflexivity.
  - apply Hkeys. exists (Error "The client is closed"), tt. reflexivity.
Defined.

(** ** The reconnect strategy *)

Lemma or_default_cases (n : option Z) (d : Z) :
  or_default n d =
    match n with
    | Some k => if k =? 0 then d else k
    | None => d
    end.
Proof.
  unfold or_default, truthy. destruct n as [k|]; [| reflexivity].
  now destruct (k =? 0).
Qed.

Lemma reconnectStrategy_within cfg n :
  n <= or_default (maxRetries cfg) 10 ->
  reconnectStrategy cfg n = Delay (Z.min (n * 100) 3000).
Proof.
  intros H. unfold reconnectStrategy.
  destruct (Z.gtb_spec n (or_default (maxRetries cfg) 10)); [lia | reflexivity].
Qed.

Lemma reconnectStrategy_beyond cfg n :
  or_default (maxRetries cfg) 10 < n ->
  reconnectStrategy cfg n = Abandon (Error "Max retries exceeded").
Proof.
  intros H. unfold reconnectStrategy.
  destruct (Z.gtb_spec n (or_default (maxRetries cfg) 10)); [reflexivity | lia].
Qed.

(** From retry number [r] on, at most [maximum + 1 - r] reconnect attempts
    are issued, and the loop is abandoned once that many have failed. *)
Lemma reconnects_bounded cfg failures r :
  (length (reconnects cfg failures r).1 <=
   Z.to_nat (or_default (maxRetries cfg) 10 + 1 - r))%nat.
Proof.
  revert r. induction failures as [|f IH]; intros r; simpl; [lia |].
  destruct (Z.le_gt_cases r (or_default (maxRetries cfg) 10)) as [Hle|Hgt].
  - rewrite reconnectStrategy_within by assumption.
    specialize (IH (r + 1)).
    destruct (reconnects cfg f (r + 1)) as [delays abandoned]. simpl in *. lia.
  - rewrite reconnectStrategy_beyond by assumption. simpl. lia.
Qed.

Lemma reconnects_abandoned cfg failures r :
  (Z.to_nat (or_default (maxRetries cfg) 10 + 1 - r) < failures)%nat ->
  (reconnects cfg failures r).2 = true /\
  length (reconnects cfg failures r).1 =
    Z.to_nat (or_default (maxRetries cfg) 10 + 1 - r).
Proof.
  revert r. induction failures as [|f IH]; intros r Hf; simpl; [lia |].
  destruct (Z.le_gt_cases r (or_default (maxRetries cfg) 10)) as [Hle|Hgt].
  - rewrite reconnectStrategy_within by assumption.
    specialize (IH (r + 1) ltac:(lia)).
    destruct (reconnects cfg f (r + 1)) as [delays abandoned]. simpl in *.
    split; [tauto | lia].
  - rewrite reconnectStrategy_beyond by assumption. simpl. split; [easy | lia].
Qed.

(** C3 (amended).  The maximum attempt count is the configured maxRetries
    when that is set and not zero, and 10 otherwise.  For every attempt
    number n not above it the reconnect delay is min(n * 100, 3000) ms; for
    every n above it the strategy returns an error, so that under
    persistent failure the reconnect loop is abandoned and at most
    maximum + 1 reconnect attempts (retries 0 to maximum) are ever
    issued. *)
Theorem reconnect_backoff (cfg : RedisConfig) (n : Z) :
  let maximum := match maxRetries cfg with
                 | Some k => if k =? 0 then 10 else k
                 | None => 10
                 end in
  (n <= maximum -> reconnectStrategy cfg n = Delay (Z.min (n * 100) 3000)) /\
  (maximum < n ->
   reconnectStrategy cfg n = Abandon (Error "Max retries exceeded")) /\
  (forall failures,
     (length (reconnects cfg failures 0).1 <= Z.to_nat (maximum + 1))%nat) /\
  (forall failures,
     (Z.to_nat (maximum + 1) < failures)%nat ->
     (reconnects cfg failures 0).2 = true /\
     length (reconnects cfg failures 0).1 = Z.to_nat (maximum + 1)).
Proof.
  intros maximum.
  assert (Hmax : or_default (maxRetries cfg) 10 = maximum)
    by apply or_default_cases.
  rewrite <- Hmax. repeat split.
  - apply reconnectStrategy_within.
  - apply reconnectStrategy_beyond.
  - intros failures. pose proof (reconnects_bounded cfg failures 0) as H.
    now rewrite Z.sub_0_r in H.
  - pose proof (reconnects_abandoned cfg failures 0) as Ha.
    rewrite Z.sub_0_r in Ha. now apply Ha.
  - pose proof (reconnects_abandoned cfg failures 0) as Ha.
    rewrite Z.sub_0_r in Ha. now apply Ha.
Qed.

Lemma reconnect_backoff_witness :
  reconnectStrategy default_config 3 = Delay 300 /\
  reconnectStrategy default_config 11 = Abandon (Error "Max retries exceeded") /\
  reconnectStrategy zero_retries_config 10 = Delay 1000.
Proof.
  destruct (reconnect_backoff default_config 3) as (Hin & _).
  destruct (reconnect_backoff default_config 11) as (_ & Hout & _).
  destruct (reconnect_backoff zero_retries_config 10) as (Hzero & _).
  split; [apply Hin; discriminate |].
  split; [apply Hout; reflexivity | apply Hzero; discriminate].
Defined.

(** C3 as first stated does not hold: with maxRetries configured as 0,
    attempt 1 exceeds the configured maximum and still gets a delay, so the
    strategy does not return an error for every attempt above the
    configured count. *)
Lemma zero_maxRetries_retry_not_abandoned :
  maxRetries zero_retries_config = Some 0 /\
  0 < 1 /\
  reconnectStrategy zero_retries_config 1 = Delay 100 /\
  ~ (forall cfg k n,
       maxRetries cfg = Some k -> k < n ->
       exists e, reconnectStrategy cfg n = Abandon e).
Proof.
  repeat split.
  intros H. destruct (H zero_retries_config 0 1 eq_refl eq_refl) as [e He].
  discriminate He.
Qed.

Lemma reconnects_ext cfg cfg' :
  (forall n, reconnectStrategy cfg n = reconnectStrategy cfg' n) ->
  forall failures r, reconnects cfg failures r = reconnects cfg' failures r.
Proof.
  intros Heq failures. induction failures as [|f IH]; intros r; simpl.
  - reflexivity.
  - now rewrite Heq, IH.
Qed.

(** C9.  A configured maxRetries of 0 does not disable reconnection: the
    strategy, and with it the reconnect loop, behaves exactly as with no
    maxRetries at all, that is with the default of 10: attempts 0 to 10 get
    their delay, and eleven reconnect attempts are issued before the loop is
    abandoned. *)
Theorem zero_maxRetries_is_default (cfg : RedisConfig) :
  maxRetries cfg = Some 0 ->
  (forall n,
     reconnectStrategy cfg n = reconnectStrategy (with_maxRetries cfg None) n /\
     reconnectStrategy cfg n =
       reconnectStrategy (with_maxRetries cfg (Some 10)) n) /\
  (forall n, 0 <= n <= 10 ->
             reconnectStrategy cfg n = Delay (Z.min (n * 100) 3000)) /\
  (forall failures,
     reconnects cfg failures 0 =
       reconnects (with_maxRetries cfg None) failures 0) /\
  (forall failures,
     (11 < failures)%nat ->
     length (reconnects cfg failures 0).1 = 11%nat).
Proof.
  intros H0.
  assert (Hs : forall n, reconnectStrategy cfg n =
                         reconnectStrategy (with_maxRetries cfg None) n).
  { intros n. unfold reconnectStrategy. simpl. now rewrite H0. }
  repeat split.
  - apply Hs.
  - unfold reconnectStrategy. simpl. now rewrite H0.
  - intros n Hn. apply reconnectStrategy_within.
    rewrite or_default_cases, H0. simpl. lia.
  - intros failures. now apply reconnects_ext.
  - intros failures Hf.
    destruct (reconnects_abandoned cfg failures 0) as [_ ->];
      rewrite or_default_cases, H0; simpl; [lia | reflexivity].
Qed.

Lemma zero_maxRetries_is_default_witness :
  reconnectStrategy zero_retries_config 1 = Delay 100 /\
  reconnectStrategy zero_retries_config 1 = reconnectStrategy default_config 1 /\
  length (reconnects zero_retries_config 20 0).1 = 11%nat.
Proof.
  destruct (zero_maxRetries_is_default zero_retries_config eq_refl)
    as (Hsame & Hdelay & _ & Hcount).
  split; [apply (Hdelay 1); split; discriminate |].
  split; [apply (Hsame 1) | apply (Hcount 20%nat); lia].
Defined.

End redis_facts.

(* ===================================================================== *)
(** * Properties of the service in front of a live server *)
(* ===================================================================== *)

Module server_facts.
Import redis server.

Lemma ready_available : unavailable ready = false.
Proof. reflexivity. Qed.

(** ** The operations of a connected service, as server commands *)

Lemma get_ready key s :
  get ready key s = (inr (value <$> lookupKey s key), s).
Proof. reflexivity. Qed.

Lemma set_ready_plain key v ttlSeconds s :
  truthy ttlSeconds = false ->
  set ready key v ttlSeconds s =
    (inr true, write s key {| value := v; expireAt := None |}).
Proof.
  intros Ht. unfold set. rewrite ready_available, Ht. reflexivity.
Qed.

Lemma set_ready_expiring key v t s :
  0 < t ->
  set ready key v (Some t) s =
    (inr true,
     write s key {| value := v; expireAt := Some (now s + t * 1000) |}).
Proof.
  intros Ht. unfold set. rewrite ready_available.
  assert (truthy (Some t) = true) as ->.
  { simpl. destruct (Z.eqb_spec t 0); [lia | reflexivity]. }
  unfold try_catch, bind, call, ret. simpl. unfold SETEX.
  destruct (Z.leb_spec t 0); [lia | reflexivity].
Qed.

Lemma ttl_ready key s :
  ttl ready key s =
    (inr match lookupKey s key with
         | None => -2
         | Some e => match expireAt e with
                     | None => -1
                     | Some when => (when - now s + 500) / 1000
                     end
         end, s).
Proof. reflexivity. Qed.

Lemma lookupKey_write s key e key' :
  lookupKey (write s key e) key' =
    if decide (key = key') then
      (if expired (now s) e then None else Some e)
    else lookupKey s key'.
Proof.
  unfold lookupKey, write. simpl. rewrite lookup_insert.
  destruct (decide (key = key')); reflexivity.
Qed.

Lemma lookupKey_elapse_persistent s key e d :
  keyspace s !! key = Some e -> expireAt e = None ->
  lookupKey (elapse d s) key = Some e.
Proof.
  intros Hk He. unfold lookupKey, elapse, expired. simpl. now rewrite Hk, He.
Qed.

(** ** DEL and KEYS *)

Lemma del_keys_lookup clock keys ks k :
  (del_keys clock keys ks).1 !! k =
    if decide (k ∈ keys) then None else ks !! k.
Proof.
  revert ks. induction keys as [|key rest IH]; intros ks; simpl.
  - destruct (decide (k ∈ [])) as [H|_]; [inversion H | reflexivity].
  - specialize (IH (delete key ks)).
    destruct (del_keys clock rest (delete key ks)) as [ks' n]. simpl in *.
    rewrite IH. destruct (decide (k ∈ rest)) as [Hin|Hnin].
    + rewrite decide_True; [reflexivity | now right].
    + destruct (decide (k = key)) as [->|Hne].
      * rewrite decide_True by left. apply lookup_delete_eq.
      * rewrite decide_False.
        -- now apply lookup_delete_ne.
        -- intros [?|?]%elem_of_cons; contradiction.
Qed.

Lemma NoDup_fst_filter {A B} (f : A * B -> bool) (l : list (A * B)) :
  NoDup (l.*1) -> NoDup ((List.filter f l).*1).
Proof.
  induction l as [|x l IH]; simpl; intros Hnd; [constructor |].
  apply NoDup_cons in Hnd as [Hx Hl].
  destruct (f x); simpl; [| now apply IH].
  apply NoDup_cons. split; [| now apply IH].
  intros Hin. apply Hx.
  apply list_elem_of_fmap in Hin as (y & -> & Hy).
  apply list_elem_of_fmap. exists y. split; [reflexivity |].
  apply list_elem_of_In. apply list_elem_of_In, filter_In in Hy. tauto.
Qed.

Lemma keys_reply_NoDup s pattern : NoDup (keys_reply s pattern).
Proof. apply NoDup_fst_filter, NoDup_fst_map_to_list. Qed.

Lemma keys_reply_matches s pattern k :
  k ∈ keys_reply s pattern <-> matches s pattern k.
Proof.
  unfold keys_reply, matches, lookupKey, matching. split.
  - intros ([k' e] & -> & Hin)%list_elem_of_fmap.
    apply list_elem_of_In, filter_In in Hin as [Hin Hm].
    apply list_elem_of_In, elem_of_map_to_list in Hin. simpl in *.
    apply andb_true_iff in Hm as [Hlive Hm]. rewrite Hin.
    apply negb_true_iff in Hlive. rewrite Hlive. eauto.
  - intros [[e He] Hm].
    destruct (keyspace s !! k) as [e'|] eqn:Hk; [| discriminate].
    destruct (expired (now s) e') eqn:Hx; [discriminate |].
    apply list_elem_of_fmap. exists (k, e'). split; [reflexivity |].
    apply list_elem_of_In, filter_In. split.
    + now apply list_elem_of_In, elem_of_map_to_list.
    + simpl. now rewrite Hx, Hm.
Qed.

Lemma delPattern_ready pattern s :
  delPattern ready pattern s =
    (inr (Z.of_nat (length (keys_reply s pattern))),
     {| keyspace := (del_keys (now s) (keys_reply s pattern) (keyspace s)).1;
        now := now s |}).
Proof.
  unfold delPattern. rewrite ready_available.
  unfold try_catch, bind, call, ret. simpl. unfold KEYS.
  destruct (keys_reply s pattern) as [|k ks] eqn:Hks.
  - simpl. now destruct s.
  - destruct (Z.eqb_spec (Z.of_nat (length (k :: ks))) 0) as [H0|_].
    + simpl in H0. lia.
    + unfold DEL.
      destruct (del_keys (now s) (k :: ks) (keyspace s)); reflexivity.
Qed.

Lemma lookupKey_delPattern pattern s s' n k :
  delPattern ready pattern s = (inr n, s') ->
  lookupKey s' k = if stringmatch pattern k then None else lookupKey s k.
Proof.
  rewrite delPattern_ready. intros [= <- <-].
  unfold lookupKey at 1. simpl. rewrite del_keys_lookup.
  destruct (decide (k ∈ keys_reply s pattern)) as [Hin|Hnin].
  - apply keys_reply_matches in Hin as [_ ->]. reflexivity.
  - fold (lookupKey s k).
    destruct (stringmatch pattern k) eqn:Hm; [| reflexivity].
    destruct (lookupKey s k) eqn:Hl; [| reflexivity].
    exfalso. apply Hnin, keys_reply_matches. split; [eauto | assumption].
Qed.

Lemma two_keys (l : list string) (a b : string) :
  a <> b -> NoDup l -> (forall k, k ∈ l <-> k = a \/ k = b) ->
  length l = 2%nat.
Proof.
  intros Hab Hnd Hl.
  assert (l ≡ₚ [a; b]) as ->; [| reflexivity].
  apply NoDup_Permutation; [assumption | |].
  - apply NoDup_cons. split; [| apply NoDup_singleton].
    now intros ->%list_elem_of_singleton.
  - intros k. rewrite Hl, elem_of_cons, list_elem_of_singleton. tauto.
Qed.

(** C4.  In front of a live server, from every store state, delPattern
    removes exactly the visible keys that match the pattern and returns
    their count; the other entries are unchanged, and with no matching key
    it returns 0.  In particular, after set("a:1",x), set("a:2",y),
    set("b:1",z) on a store with no other key matching "a:*",
    delPattern("a:*") returns 2, "a:1" and "a:2" are gone and get("b:1")
    still returns z. *)
Theorem delPattern_deletes_matching (s : Server) (pattern : string) :
  (exists (keys : list string) (s' : Server),
     delPattern ready pattern s = (inr (Z.of_nat (length keys)), s') /\
     NoDup keys /\
     (forall k, k ∈ keys <-> matches s pattern k) /\
     (forall k, lookupKey s' k =
                if stringmatch pattern k then None else lookupKey s k) /\
     (forall k, ~ matches s pattern k -> keyspace s' !! k = keyspace s !! k) /\
     now s' = now s) /\
  ((forall k, ~ matches s pattern k) ->
   delPattern ready pattern s = (inr 0, s)) /\
  (forall x y z : string,
     (forall k, matches s "a:*" k -> k = "a:1" \/ k = "a:2") ->
     exists s1 s2 s3 s4,
       set ready "a:1" x None s = (inr true, s1) /\
       set ready "a:2" y None s1 = (inr true, s2) /\
       set ready "b:1" z None s2 = (inr true, s3) /\
       delPattern ready "a:*" s3 = (inr 2, s4) /\
       get ready "a:1" s4 = (inr None, s4) /\
       get ready "a:2" s4 = (inr None, s4) /\
       get ready "b:1" s4 = (inr (Some z), s4) /\
       (forall k, stringmatch "a:*" k = false ->
                  lookupKey s4 k = lookupKey s3 k)).
Proof.
  split; [| split].
  - eexists _, _. split; [apply delPattern_ready |].
    split; [apply keys_reply_NoDup |].
    split; [apply keys_reply_matches |].
    split; [intros k; eapply lookupKey_delPattern, delPattern_ready |].
    split; [| reflexivity].
    intros k Hk. simpl. rewrite del_keys_lookup.
    rewrite decide_False; [reflexivity |].
    now rewrite keys_reply_matches.
  - intros Hnone. rewrite delPattern_ready.
    destruct (keys_reply s pattern) as [|k ks] eqn:Hks.
    + simpl. now destruct s.
    + exfalso. apply (Hnone k), keys_reply_matches. rewrite Hks. left.
  - intros x y z Hother.
    eexists _, _, _, _.
    split; [now apply set_ready_plain |].
    split; [now apply set_ready_plain |].
    split; [now apply set_ready_plain |].
    set (s1 := write s "a:1" _). set (s2 := write s1 "a:2" _).
    set (s3 := write s2 "b:1" _).
    assert (Hm3 : forall k, matches s3 "a:*" k <-> k = "a:1" \/ k = "a:2").
    { intros k. unfold matches, s3, s2, s1. rewrite !lookupKey_write.
      unfold expired; simpl. split.
      - intros [Hs Hm].
        destruct (decide ("b:1" = k)) as [<-|_]; [discriminate |].
        destruct (decide ("a:2" = k)) as [<-|_]; [now right |].
        destruct (decide ("a:1" = k)) as [<-|_]; [now left |].
        now apply Hother.
      - intros [-> | ->]; (split; [| reflexivity]).
        + rewrite decide_False by discriminate.
          rewrite decide_False by discriminate.
          rewrite decide_True by reflexivity. eauto.
        + rewrite decide_False by discriminate.
          rewrite decide_True by reflexivity. eauto. }
    assert (Hlen : length (keys_reply s3 "a:*") = 2%nat).
    { apply (two_keys _ "a:1" "a:2"); [discriminate | apply keys_reply_NoDup |].
      intros k. now rewrite keys_reply_matches. }
    pose proof (delPattern_ready "a:*" s3) as Hd. rewrite Hlen in Hd.
    split; [exact Hd |].
    set (s4 := {| keyspace := _; now := _ |}) in *.
    pose proof (fun k => lookupKey_delPattern _ _ _ _ k Hd) as Hl.
    rewrite !get_ready, !Hl.
    split; [reflexivity |]. split; [reflexivity |]. split.
    + unfold s3. rewrite lookupKey_write. reflexivity.
    + intros k Hk. now rewrite Hl, Hk.
Qed.

Lemma delPattern_deletes_matching_witness :
  exists s1 s2 s3 s4,
    set ready "a:1" "x" None (empty_at 0) = (inr true, s1) /\
    set ready "a:2" "y" None s1 = (inr true, s2) /\
    set ready "b:1" "z" None s2 = (inr true, s3) /\
    delPattern ready "a:*" s3 = (inr 2, s4) /\
    get ready "a:1" s4 = (inr None, s4) /\
    get ready "a:2" s4 = (inr None, s4) /\
    get ready "b:1" s4 = (inr (Some "z"), s4) /\
    (forall k, stringmatch "a:*" k = false -> lookupKey s4 k = lookupKey s3 k).
Proof.
  destruct (delPattern_deletes_matching (empty_at 0) "a:*") as (_ & _ & Hex).
  apply (Hex "x" "y" "z").
  intros k [[e He] _]. unfold lookupKey in He. simpl in He.
  rewrite lookup_empty in He. discriminate He.
Defined.

(** C5.  While the service is connected, for every key k, string v and TTL
    t > 0: set(k, v, t) succeeds, and a get(k) issued before t seconds have
    elapsed, with no write or delete in between, returns v. *)
Theorem set_then_get_round_trip (k v : string) (t : Z) (s : Server) (d : Z) :
  0 < t -> d < t * 1000 ->
  exists s1,
    set ready k v (Some t) s = (inr true, s1) /\
    get ready k (elapse d s1) = (inr (Some v), elapse d s1).
Proof.
  intros Ht Hd. eexists. split; [now apply set_ready_expiring |].
  rewrite get_ready. unfold lookupKey, elapse, write, expired. simpl.
  rewrite lookup_insert_eq. simpl.
  destruct (Z.ltb_spec (now s + t * 1000) (now s + d)); [lia | reflexivity].
Qed.

Lemma set_then_get_round_trip_witness :
  exists s1,
    set ready "k" "v" (Some 60) (empty_at 0) = (inr true, s1) /\
    get ready "k" (elapse 59999 s1) = (inr (Some "v"), elapse 59999 s1).
Proof.
  apply (set_then_get_round_trip "k" "v" 60 (empty_at 0) 59999);
    reflexivity.
Defined.

(** C7.  ttl(key) in front of a live server: for a visible key with an
    expiry it is the remaining time in seconds (rounded to the nearest
    second, never negative), for a visible key without expiry it is -1, for
    an absent key it is -2; a disconnected service, and a client call that
    throws, give -2 as well. *)
Theorem ttl_three_way (key : string) (s : Server) :
  (forall e when,
     lookupKey s key = Some e -> expireAt e = Some when ->
     exists r,
       ttl ready key s = (inr r, s) /\
       0 <= r /\
       1000 * r - 500 <= when - now s < 1000 * r + 500) /\
  (forall e,
     lookupKey s key = Some e -> expireAt e = None ->
     ttl ready key s = (inr (-1), s)) /\
  (lookupKey s key = None -> ttl ready key s = (inr (-2), s)) /\
  (forall W (m : Module W) w,
     isRedisConnected m = false -> ttl m key w = (inr (-2), w)) /\
  (forall W (m : Module W) c w,
     redisClient m = Some c -> throws (client_ttl c key) w ->
     answers (ttl m key) w (-2)).
Proof.
  repeat split.
  - intros e when Hl He. rewrite ttl_ready, Hl, He.
    assert (Hlive : now s <= when).
    { unfold lookupKey in Hl.
      destruct (keyspace s !! key) as [e'|]; [| discriminate].
      destruct (expired (now s) e') eqn:Hx; [discriminate |].
      injection Hl as ->. unfold expired in Hx. rewrite He in Hx.
      now apply Z.ltb_ge in Hx. }
    eexists. split; [reflexivity |].
    pose proof (Z.div_mod (when - now s + 500) 1000 ltac:(lia)).
    pose proof (Z.mod_pos_bound (when - now s + 500) 1000 ltac:(lia)).
    split; [apply Z.div_pos; lia | lia].
  - intros e Hl He. now rewrite ttl_ready, Hl, He.
  - intros Hl. now rewrite ttl_ready, Hl.
  - intros W m w H.
    now apply (redis_facts.disconnected_sentinels m key EmptyString None EmptyString w).
  - intros W m c w Hc Ht. now apply (redis_facts.ttl_caught m c).
Qed.

Lemma ttl_three_way_witness :
  (exists r, ttl ready "session" sample = (inr r, sample) /\
             0 <= r /\ 1000 * r - 500 <= 60000 - 0 < 1000 * r + 500) /\
  ttl ready "page:1" sample = (inr (-1), sample) /\
  ttl ready "page:3" sample = (inr (-2), sample) /\
  ttl uninitialised "session" tt = (inr (-2), tt).
Proof.
  destruct (ttl_three_way "session" sample) as (Hexp & _ & _ & Hdown & _).
  destruct (ttl_three_way "page:1" sample) as (_ & Hpers & _).
  destruct (ttl_three_way "page:3" sample) as (_ & _ & Habsent & _).
  split; [apply (Hexp {| value := "s"; expireAt := Some 60000 |} 60000);
          reflexivity |].
  split; [apply (Hpers {| value := "p1"; expireAt := None |}); reflexivity |].
  split; [apply Habsent; reflexivity |].
  apply (Hdown unit uninitialised tt). reflexivity.
Defined.

(** C8.  set(k, v, 0) takes the same path as set(k, v) without a TTL:
    whatever the client, it calls SET and never SETEX, because ttlSeconds
    is tested for truthiness.  In front of a live server it therefore
    stores v without expiry: from then on, however much time passes, get(k)
    returns v and ttl(k) is -1. *)
Theorem set_zero_ttl_never_expires (k v : string) :
  (forall W (m : Module W), set m k v (Some 0) = set m k v None) /\
  (forall W (m : Module W) c w,
     redisClient m = Some c -> isConnected m = true ->
     set m k v (Some 0) w =
       match client_set c k v w with
       | (inr _, w') => (inr true, w')
       | (inl _, w') => (inr false, w')
       end) /\
  (forall (s : Server),
     exists s1,
       set ready k v (Some 0) s = (inr true, s1) /\
       keyspace s1 !! k = Some {| value := v; expireAt := None |} /\
       forall d,
         get ready k (elapse d s1) = (inr (Some v), elapse d s1) /\
         ttl ready k (elapse d s1) = (inr (-1), elapse d s1)).
Proof.
  split; [reflexivity | split].
  - intros W m c w Hc Hi.
    unfold set, unavailable, isRedisConnected, call. rewrite Hc, Hi. simpl.
    unfold try_catch, bind, ret.
    destruct (client_set c k v w) as [[e|r] w']; reflexivity.
  - intros s. eexists. split; [now apply set_ready_plain |].
    split; [apply lookup_insert_eq |].
    intros d. rewrite get_ready, ttl_ready.
    erewrite lookupKey_elapse_persistent;
      [| apply lookup_insert_eq | reflexivity].
    split; reflexivity.
Qed.

Lemma set_zero_ttl_never_expires_witness :
  set stale "k" "v" (Some 0) tt = (inr false, tt) /\
  exists s1,
    set ready "k" "v" (Some 0) sample = (inr true, s1) /\
    get ready "k" (elapse 86400000 s1) = (inr (Some "v"), elapse 86400000 s1) /\
    ttl ready "k" (elapse 86400000 s1) = (inr (-1), elapse 86400000 s1).
Proof.
  destruct (set_zero_ttl_never_expires "k" "v") as (_ & Hpath & Hlive).
  split; [apply (Hpath unit stale closed_client tt); reflexivity |].
  destruct (Hlive sample) as (s1 & Hset & _ & Hlater).
  exists s1. split; [exact Hset | apply Hlater].
Defined.

(** C6.  delPattern is all-or-nothing towards its caller, whatever the
    client does: it either reports no removal (returns 0), or returns the
    full count of the keys it enumerated, and then only after the bulk
    delete of that whole list has completed without error.  In front of a
    live server a positive count means every enumerated key is gone; a
    delete that fails half-way is reported as 0. *)
Theorem delPattern_all_or_nothing {W} (m : Module W) (pattern : string) (w : W) :
  (exists n w',
     delPattern m pattern w = (inr n, w') /\
     (n = 0 \/
      exists c keys w1 reply,
        redisClient m = Some c /\
        client_keys c pattern w = (inr keys, w1) /\
        client_del c keys w1 = (inr reply, w') /\
        n = Z.of_nat (length keys))) /\
  (forall s n s',
     delPattern ready pattern s = (inr n, s') ->
     0 < n ->
     n = Z.of_nat (length (keys_reply s pattern)) /\
     forall k, k ∈ keys_reply s pattern -> keyspace s' !! k = None).
Proof.
  split.
  - unfold delPattern. destruct (unavailable m) eqn:Hu.
    { exists 0, w. split; [reflexivity | now left]. }
    apply redis_facts.available_client in Hu as (c & Hc & _).
    unfold call. rewrite Hc. unfold try_catch, bind, ret.
    destruct (client_keys c pattern w) as [[e|keys] w1] eqn:Hk.
    { exists 0, w1. split; [reflexivity | now left]. }
    destruct (Z.of_nat (length keys) =? 0).
    { exists 0, w1. split; [reflexivity | now left]. }
    destruct (client_del c keys w1) as [[e|reply] w2] eqn:Hd.
    { exists 0, w2. split; [reflexivity | now left]. }
    exists (Z.of_nat (length keys)), w2. split; [reflexivity |].
    right. exists c, keys, w1, reply. auto.
  - intros s n s'. rewrite delPattern_ready. intros [= <- <-] Hn.
    split; [reflexivity |].
    intros k Hk. simpl. rewrite del_keys_lookup. now rewrite decide_True.
Qed.

Lemma delPattern_all_or_nothing_witness :
  2 = Z.of_nat (length (keys_reply sample "page:*")) /\
  (forall k, k ∈ keys_reply sample "page:*" ->
             keyspace (delPattern ready "page:*" sample).2 !! k = None) /\
  exists s', delPattern dropping "page:*" sample = (inr 0, s').
Proof.
  destruct (delPattern_all_or_nothing ready "page:*" sample) as (_ & Hlive).
  destruct (Hlive sample 2 (delPattern ready "page:*" sample).2) as [Hn Hgone];
    [reflexivity | reflexivity |].
  destruct (delPattern_all_or_nothing dropping "page:*" sample)
    as ((n & s' & Heq & Hcase) & _).
  split; [exact Hn |]. split; [exact Hgone |].
  exists s'. destruct Hcase as [-> | (c & keys & w1 & reply & Hc & _ & Hd & _)].
  - exact Heq.
  - injection Hc as <-. discriminate Hd.
Defined.

End server_facts.

(* ===================================================================== *)
(** * Properties of the health endpoint *)
(* ===================================================================== *)

Module health_facts.
Import health.

(** C2.  The health endpoint answers a body {status, storage, redis,
    timestamp} in which status is "ok" exactly when the storage service is
    healthy and the Redis service is connected, and "degraded" otherwise;
    storage is "ok" exactly when the storage service is healthy; redis is
    "connected" exactly when the Redis service is connected.  The HTTP
    status code is 200 exactly when the storage service is healthy and 503
    otherwise, so a disconnected Redis alone never gives 503. *)
Theorem health_report {W} (healthy : bool) (m : redis.Module W) (date : string) :
  let connected := redis.isRedisConnected m in
  let body := (health healthy m date).1 in
  let code := (health healthy m date).2 in
  (status body = "ok" <-> healthy = true /\ connected = true) /\
  (status body = "degraded" <-> ~ (healthy = true /\ connected = true)) /\
  (storage body = "ok" <-> healthy = true) /\
  (storage body = "unhealthy" <-> healthy = false) /\
  (redis body = "connected" <-> connected = true) /\
  (redis body = "disconnected" <-> connected = false) /\
  timestamp body = date /\
  (code = 200 <-> healthy = true) /\
  (code = 503 <-> healthy = false) /\
  (healthy = true -> connected = false ->
   code = 200 /\ status body = "degraded").
Proof.
  unfold health. simpl.
  destruct healthy, (redis.isRedisConnected m); simpl;
    repeat split; intros; try easy; tauto.
Qed.

Lemma health_report_witness :
  (health true redis.uninitialised "2026-02-09T19:30:00.000Z").2 = 200 /\
  status (health true redis.uninitialised "2026-02-09T19:30:00.000Z").1
    = "degraded" /\
  (health false server.ready "2026-02-09T19:30:00.000Z").2 = 503.
Proof.
  destruct (health_report true redis.uninitialised "2026-02-09T19:30:00.000Z")
    as (_ & _ & _ & _ & _ & _ & _ & _ & _ & Halone).
  destruct (health_report false server.ready "2026-02-09T19:30:00.000Z")
    as (_ & _ & _ & _ & _ & _ & _ & _ & Hdown & _).
  destruct (Halone eq_refl eq_refl) as [Hcode Hstatus].
  split; [exact Hcode |]. split; [exact Hstatus | now apply Hdown].
Defined.

End health_facts.

(* ===================================================================== *)
(** * Properties of the audio error handler *)
(* ===================================================================== *)

Module audioErrorHandler_facts.
Import audioErrorHandler.

Section Facts.
Variable URL_origin : string -> option string.
Local Abbreviation handler := (handler URL_origin).
Local Abbreviation run := (run URL_origin).

Lemma eqb_false_neq (a b : string) : String.eqb a b = false -> a <> b.
Proof. intros H ->. now rewrite String.eqb_refl in H. Qed.

Lemma rewrote_same st st' :
  src (audio st') = src (audio st) -> rewrote st st' = false.
Proof. intros H. unfold rewrote. now rewrite H, String.eqb_refl. Qed.

(** An element already marked as retried is only paused. *)
Lemma handler_retried st prefetch :
  retried (audio st) = Some "true" ->
  audio (state_of (handler st prefetch)) = pause (audio st).
Proof.
  intros Hr. unfold handler. simpl.
  destruct (_ || _); [reflexivity |].
  destruct (URL_origin (src (audio st))) as [origin|]; [| reflexivity].
  destruct (js.endsWith _ _).
  { destruct (_ && _); reflexivity. }
  rewrite (bool_decide_eq_true_2 _ Hr), !orb_true_r.
  destruct (String.eqb prefetch EmptyString); reflexivity.
Qed.

(** What a call that replaces [audio.src] did. *)
Lemma handler_rewrote st prefetch :
  rewrote st (state_of (handler st prefetch)) = true ->
  retried (audio st) <> Some "true" /\
  (exists origin p,
     URL_origin (src (audio st)) = Some origin /\
     proxy (playerStore st) = Some p /\ p <> EmptyString /\ origin <> p /\
     src (audio (state_of (handler st prefetch))) =
       js.replace (src (audio st)) origin p /\
     js.replace (src (audio st)) origin p <> src (audio st)) /\
  retried (audio (state_of (handler st prefetch))) = Some "true".
Proof.
  unfold handler. simpl.
  destruct (_ || _); [now rewrite rewrote_same |].
  destruct (URL_origin (src (audio st))) as [origin|];
    [| now rewrite rewrote_same].
  destruct (js.endsWith _ _).
  { destruct (_ && _); now rewrite rewrote_same. }
  destruct (proxy (playerStore st)) as [p|] eqn:Hp; simpl;
    [| destruct (String.eqb prefetch EmptyString); now rewrite rewrote_same].
  destruct (String.eqb p EmptyString) eqn:Hpe; simpl;
    [destruct (String.eqb prefetch EmptyString); now rewrite rewrote_same |].
  destruct (bool_decide (Some origin = Some p)) eqn:Hop; simpl;
    [destruct (String.eqb prefetch EmptyString); now rewrite rewrote_same |].
  destruct (bool_decide (retried (audio st) = Some "true")) eqn:Hr; simpl;
    [destruct (String.eqb prefetch EmptyString); now rewrite rewrote_same |].
  destruct (String.eqb (js.replace (src (audio st)) origin p)
                       (src (audio st))) eqn:Hnew; simpl;
    [destruct (String.eqb prefetch EmptyString); now rewrite rewrote_same |].
  intros _. split; [now apply bool_decide_eq_false_1 in Hr |].
  split; [| reflexivity].
  exists origin, p. repeat split; try reflexivity.
  - now apply eqb_false_neq.
  - apply bool_decide_eq_false_1 in Hop. congruence.
  - now apply eqb_false_neq.
Qed.

Lemma run_retried calls st :
  retried (audio st) = Some "true" -> (run calls st).2 = 0%nat.
Proof.
  revert st. induction calls as [|i rest IH]; intros st Hr; simpl;
    [reflexivity |].
  pose proof (handler_retried (interfere i st) (prefetch i) Hr) as Ha.
  specialize (IH (state_of (handler (interfere i st) (prefetch i)))).
  rewrite Ha in IH. specialize (IH Hr).
  destruct (run rest _) as [st3 n]. simpl in *.
  rewrite rewrote_same; [now rewrite IH | now rewrite Ha].
Qed.

Lemma run_at_most_once calls st : ((run calls st).2 <= 1)%nat.
Proof.
  revert st. induction calls as [|i rest IH]; intros st; simpl; [lia |].
  destruct (rewrote (interfere i st)
              (state_of (handler (interfere i st) (prefetch i)))) eqn:Hw.
  - apply handler_rewrote in Hw as (_ & _ & Hr).
    pose proof (run_retried rest _ Hr) as H0.
    destruct (run rest _) as [st3 n]. simpl in *. lia.
  - specialize (IH (state_of (handler (interfere i st) (prefetch i)))).
    destruct (run rest _) as [st3 n]. simpl in *. lia.
Qed.

(** A retried element whose [src] reaches the proxy check. *)
Lemma handler_retried_failed st :
  retried (audio st) = Some "true" ->
  src (audio st) <> EmptyString ->
  src (audio st) <> location_href st ->
  is_Some (URL_origin (src (audio st))) ->
  js.endsWith (src (audio st)) "&fallback" = false ->
  exists st',
    handler st EmptyString = Returns st' /\
    playbackState (playerStore st') = "none" /\
    status (playerStore st') = "Streaming Failed".
Proof.
  intros Hr He Hl [origin Ho] Hf. unfold handler. simpl.
  destruct (String.eqb_spec (src (audio st)) EmptyString); [contradiction |].
  destruct (String.eqb_spec (src (audio st)) (location_href st));
    [contradiction |].
  simpl. rewrite Ho, Hf.
  rewrite (bool_decide_eq_true_2 _ Hr), !orb_true_r.
  eexists. split; [reflexivity |]. split; reflexivity.
Qed.
End Facts.

(** C10 (amended).  The handler replaces a media element's src by the
    proxied one at most once per element: a replacement only happens when
    a proxy is configured, the element is not marked retried, its origin
    differs from the proxy and the replacement changes the URL; it marks
    the element retried, so every later call leaves its src unchanged.  A
    later call that is not prefetching and reaches the proxy check (the src
    is not empty, is not the page URL, parses as a URL and does not end in
    "&fallback") sets playbackState to "none" and status to "Streaming
    Failed" instead of retrying. *)
Theorem proxy_rewrite_at_most_once
    (URL_origin : string -> option string) (st : State) (prefetch : string) :
  let st' := state_of (handler URL_origin st prefetch) in
  (rewrote st st' = true ->
   retried (audio st) <> Some "true" /\
   (exists origin p,
      URL_origin (src (audio st)) = Some origin /\
      proxy (playerStore st) = Some p /\ p <> EmptyString /\ origin <> p /\
      src (audio st') = js.replace (src (audio st)) origin p /\
      js.replace (src (audio st)) origin p <> src (audio st)) /\
   retried (audio st') = Some "true") /\
  (retried (audio st) = Some "true" ->
   src (audio st') = src (audio st) /\ retried (audio st') = Some "true") /\
  (forall calls, ((run URL_origin calls st).2 <= 1)%nat) /\
  (retried (audio st) = Some "true" ->
   src (audio st) <> EmptyString ->
   src (audio st) <> location_href st ->
   is_Some (URL_origin (src (audio st))) ->
   js.endsWith (src (audio st)) "&fallback" = false ->
   exists st'',
     handler URL_origin st EmptyString = Returns st'' /\
     playbackState (playerStore st'') = "none" /\
     status (playerStore st'') = "Streaming Failed").
Proof.
  intros st'. split; [| split; [| split]].
  - apply handler_rewrote.
  - intros Hr. unfold st'. rewrite (handler_retried _ _ _ Hr). now split.
  - intros calls. apply run_at_most_once.
  - apply handler_retried_failed.
Qed.

(** C10 as first stated does not hold: after a replacement, a later call
    that is not prefetching can return without setting the failure status.
    Here the proxied URL is the page URL, so the second call stops at the
    first guard; and a retried element that plays a fallback stream gets
    the 403 message instead. *)
Lemma retried_without_failure_status :
  rewrote (playing "https://cdn.example/a.mp3" None) first_error = true /\
  retried (audio first_error) = Some "true" /\
  handler origins first_error EmptyString = Returns second_error /\
  src (audio second_error) = src (audio first_error) /\
  playbackState (playerStore second_error) = "playing" /\
  status (playerStore second_error) <> "Streaming Failed" /\
  retried (audio fallback_error) = Some "true" /\
  snackbar (store fallback_error) = Some "Error 403 : Unauthenticated Stream" /\
  status (playerStore fallback_error) <> "Streaming Failed".
Proof. repeat split; try reflexivity; discriminate. Qed.

Lemma proxy_rewrite_at_most_once_witness :
  src (audio first_error) = "https://proxy.example/a.mp3" /\
  retried (audio first_error) = Some "true" /\
  src (audio fallback_error) = "https://cdn.example/a.mp3&fallback".
Proof.
  pose proof (proxy_rewrite_at_most_once origins
                (playing "https://cdn.example/a.mp3" None) EmptyString)
    as (Hfirst & _).
  destruct (Hfirst eq_refl) as (_ & (origin & p & Ho & Hp & _ & _ & Hsrc & _) & Hr).
  injection Ho as <-. injection Hp as <-.
  pose proof (proxy_rewrite_at_most_once origins
                (playing "https://cdn.example/a.mp3&fallback" (Some "true"))
                EmptyString) as (_ & Hkeep & _).
  destruct (Hkeep eq_refl) as [Hsame _].
  split; [exact Hsrc |]. split; [exact Hr | exact Hsame].
Defined.

End audioErrorHandler_facts.

(* ===================================================================== *)
(** * Properties of the connection life cycle *)
(* ===================================================================== *)

Module lifecycle_facts.
Import redis lifecycle.

Lemma emit_snoc {W} (s : Service W) events ev :
  emit (events ++ [ev]) s = notify (emit events s) ev.
Proof. unfold emit. now rewrite fold_left_app. Qed.

Lemma emit_client {W} (s : Service W) events :
  client (emit events s) = client s.
Proof.
  revert s. induction events as [|ev events IH]; intros s;
    [reflexivity |].
  change (client (emit events (notify s ev)) = client s). now rewrite IH.
Qed.

Lemma clientless_disconnected {W} (s : Service W) :
  client s = None -> isRedisConnected (module s) = false.
Proof.
  intros H. unfold isRedisConnected, module. simpl. rewrite H. simpl.
  apply andb_false_r.
Qed.

Lemma flag_down_disconnected {W} (s : Service W) :
  connected s = false -> isRedisConnected (module s) = false.
Proof. intros H. unfold isRedisConnected, module. simpl. now rewrite H. Qed.

(** X1.  The listeners make the connection flag follow the last event
    delivered: true after connect or ready, false after error or
    reconnecting, whatever came before; and no event ever changes the
    installed client. *)
Theorem listeners_track_last_event {W} (s : Service W)
    (events : list ClientEvent) (ev : ClientEvent) :
  client (emit (events ++ [ev]) s) = client s /\
  connected (emit (events ++ [ev]) s) =
    match ev with
    | connect_event | ready_event => true
    | error_event _ | reconnecting_event => false
    end.
Proof.
  split; [apply emit_client |].
  rewrite emit_snoc. now destruct ev.
Qed.

(** X2.  Without an installed client no sequence of events makes the
    service connected: whatever the listeners receive, every cache
    operation answers its sentinel and leaves the world alone. *)
Theorem clientless_service_stays_down {W} (s : Service W)
    (events : list ClientEvent) (key value pattern : string)
    (ttlSeconds : option Z) (w : W) :
  client s = None ->
  let m := module (emit events s) in
  isRedisConnected m = false /\
  get m key w = (inr None, w) /\
  set m key value ttlSeconds w = (inr false, w) /\
  del m key w = (inr false, w) /\
  delPattern m pattern w = (inr 0, w) /\
  exists_ m key w = (inr false, w) /\
  ttl m key w = (inr (-2), w) /\
  incr m key w = (inr 0, w) /\
  getStats m w = (inr [("status", "disconnected")], w).
Proof.
  intros Hc m.
  assert (Hd : isRedisConnected m = false).
  { apply clientless_disconnected. now rewrite emit_client. }
  split; [exact Hd |].
  now apply redis_facts.disconnected_sentinels.
Qed.

Lemma clientless_service_stays_down_witness :
  isRedisConnected
    (module (emit [connect_event; ready_event]
               (initial (W:=server.Server)))) = false /\
  get (module (emit [connect_event; ready_event] initial)) "page:1"
      server.sample = (inr None, server.sample).
Proof.
  destruct (clientless_service_stays_down (initial (W:=server.Server))
              [connect_event; ready_event] "page:1" "v" "page:*" None
              server.sample eq_refl) as (Hdown & Hget & _).
  split; [exact Hdown | exact Hget].
Defined.

(** X3.  When [createClient] throws or [connect] rejects, initRedis leaves
    the service exactly as it is before any initialisation (no client,
    flag down), whatever it was before and whatever events were emitted
    during the attempt; from then on the service is unavailable. *)
Theorem initRedis_failure_resets {W} (config : AppConfig)
    (createClient : ClientOptions -> JsError + Connection W)
    (redisConfig : option RedisConfig) (s : Service W) (w : W) :
  ((exists e, createClient (options (resolve config redisConfig)) = inl e) \/
   (exists c e events w',
      createClient (options (resolve config redisConfig)) = inr c /\
      connect c w = (inl e, events, w'))) ->
  (initRedis config createClient redisConfig s w).1 = initial /\
  forall later,
    unavailable
      (module (emit later (initRedis config createClient redisConfig s w).1))
    = true.
Proof.
  intros Hfail.
  assert (Hinit : (initRedis config createClient redisConfig s w).1 = initial).
  { unfold initRedis.
    destruct Hfail as [[e ->] | (c & e & events & w' & -> & Hc)];
      [reflexivity | now rewrite Hc]. }
  split; [exact Hinit |].
  intros later. rewrite Hinit.
  apply redis_facts.unavailable_disconnected, clientless_disconnected.
  now rewrite emit_client.
Qed.

Lemma initRedis_failure_resets_witness :
  (initRedis app_config (fun _ => inr unreachable) None
     {| client := Some up; connected := true |} server.sample).1 = initial /\
  unavailable
    (module (emit [ready_event]
               (initRedis app_config (fun _ => inr unreachable) None
                  {| client := Some up; connected := true |}
                  server.sample).1)) = true.
Proof.
  destruct (initRedis_failure_resets app_config (fun _ => inr unreachable)
              None {| client := Some up; connected := true |} server.sample)
    as [Hinit Hlater].
  - right. eexists _, _, _, _. split; reflexivity.
  - split; [exact Hinit | exact (Hlater [ready_event])].
Defined.

(** X4.  When [connect] resolves, initRedis installs the new client, and
    the connection flag is whatever the events emitted during [connect]
    left: that of the last event, or, when no event was emitted, the flag
    the service had before the call (initRedis itself never sets it on
    success). *)
Theorem initRedis_success_installs {W} (config : AppConfig)
    (createClient : ClientOptions -> JsError + Connection W)
    (redisConfig : option RedisConfig) (s : Service W) (w : W)
    (c : Connection W) (events : list ClientEvent) (w' : W) :
  createClient (options (resolve config redisConfig)) = inr c ->
  connect c w = (inr tt, events, w') ->
  let s' := (initRedis config createClient redisConfig s w).1 in
  client s' = Some c /\
  (initRedis config createClient redisConfig s w).2 = w' /\
  (events = [] -> connected s' = connected s) /\
  (forall (before : list ClientEvent) (ev : ClientEvent),
     events = (before ++ [ev])%list ->
     connected s' = match ev with
                    | connect_event | ready_event => true
                    | error_event _ | reconnecting_event => false
                    end).
Proof.
  intros Hcreate Hconnect s'. unfold s', initRedis.
  rewrite Hcreate, Hconnect. simpl.
  split; [now rewrite emit_client |]. split; [reflexivity |]. split.
  - now intros ->.
  - intros before ev ->. rewrite emit_snoc. now destruct ev.
Qed.

Lemma initRedis_success_installs_witness :
  client (initRedis app_config (fun _ => inr up) None initial
            server.sample).1 = Some up /\
  connected (initRedis app_config (fun _ => inr up) None initial
               server.sample).1 = true.
Proof.
  destruct (initRedis_success_installs app_config (fun _ => inr up) None
              initial server.sample up [connect_event; ready_event]
              server.sample eq_refl eq_refl) as (Hc & _ & _ & Hlast).
  split; [exact Hc | exact (Hlast [connect_event] ready_event eq_refl)].
Defined.

(** X5.  closeRedis without an installed client does nothing and does not
    call the client.  When [quit] resolves it removes the client and lowers
    the flag; from then on, whatever events the old client still emits, the
    service is unavailable and a further closeRedis is a no-op that leaves
    the world alone. *)
Theorem closeRedis_releases {W} (s : Service W) (w : W) :
  (client s = None -> closeRedis s w = (inr tt, s, w)) /\
  (forall c reply events w',
     client s = Some c -> quit c w = (inr reply, events, w') ->
     closeRedis s w = (inr tt, initial, w') /\
     forall later w'',
       unavailable (module (emit later (closeRedis s w).1.2)) = true /\
       closeRedis (emit later (closeRedis s w).1.2) w'' =
         (inr tt, emit later (closeRedis s w).1.2, w'')).
Proof.
  split.
  - intros Hc. unfold closeRedis. now rewrite Hc.
  - intros c reply events w' Hc Hq.
    assert (Hclose : closeRedis s w = (inr tt, initial, w')).
    { unfold closeRedis. now rewrite Hc, Hq. }
    split; [exact Hclose |].
    intros later w''. rewrite Hclose. simpl.
    assert (Hnone : client (emit later (initial (W:=W))) = None)
      by now rewrite emit_client.
    split.
    + now apply redis_facts.unavailable_disconnected, clientless_disconnected.
    + unfold closeRedis. now rewrite Hnone.
Qed.

Lemma closeRedis_releases_witness :
  closeRedis {| client := Some up; connected := true |} server.sample
    = (inr tt, initial, server.sample) /\
  closeRedis (W:=server.Server) initial server.sample
    = (inr tt, initial, server.sample).
Proof.
  destruct (closeRedis_releases {| client := Some up; connected := true |}
              server.sample) as [_ Hquit].
  destruct (Hquit up "OK" [] server.sample eq_refl eq_refl) as (Hc & Hn).
  split; [exact Hc | exact (proj2 (Hn [] server.sample))].
Defined.

(** X6.  closeRedis is not protected by a try: when [quit] rejects, the
    error reaches the caller and the client stays installed; if no event
    was emitted meanwhile, the service reports the same connection state as
    before the call. *)
Theorem closeRedis_propagates_quit_error {W} (s : Service W) (w : W)
    (c : Connection W) (e : JsError) (events : list ClientEvent) (w' : W) :
  client s = Some c ->
  quit c w = (inl e, events, w') ->
  (closeRedis s w).1.1 = inl e /\
  client (closeRedis s w).1.2 = Some c /\
  (events = [] ->
   closeRedis s w = (inl e, s, w') /\
   isRedisConnected (module (closeRedis s w).1.2) =
     isRedisConnected (module s)).
Proof.
  intros Hc Hq. unfold closeRedis. rewrite Hc, Hq. simpl.
  split; [reflexivity |]. split; [now rewrite emit_client |].
  now intros ->.
Qed.

Lemma closeRedis_propagates_quit_error_witness :
  closeRedis {| client := Some unreachable; connected := true |} server.sample
    = (inl (Error "The client is closed"),
       {| client := Some unreachable; connected := true |}, server.sample) /\
  isRedisConnected
    (module (closeRedis {| client := Some unreachable; connected := true |}
               server.sample).1.2) = true.
Proof.
  destruct (closeRedis_propagates_quit_error
              {| client := Some unreachable; connected := true |}
              server.sample unreachable (Error "The client is closed") []
              server.sample eq_refl eq_refl) as (_ & _ & Hsame).
  destruct (Hsame eq_refl) as [Heq Hconn].
  split; [exact Heq | exact Hconn].
Defined.

(** X7.  The listeners gate the cache operations.  After an error or a
    reconnecting event every operation answers its sentinel without
    calling the client; after a connect or ready event on a service with a
    client, get is the client's GET with a thrown error turned into
    null. *)
Theorem events_gate_operations {W} (s : Service W) (key : string) (w : W) :
  (forall ev,
     match ev with
     | error_event _ | reconnecting_event => True
     | connect_event | ready_event => False
     end ->
     get (module (notify s ev)) key w = (inr None, w) /\
     ttl (module (notify s ev)) key w = (inr (-2), w) /\
     exists_ (module (notify s ev)) key w = (inr false, w) /\
     del (module (notify s ev)) key w = (inr false, w) /\
     incr (module (notify s ev)) key w = (inr 0, w)) /\
  (forall ev c,
     match ev with
     | error_event _ | reconnecting_event => False
     | connect_event | ready_event => True
     end ->
     client s = Some c ->
     get (module (notify s ev)) key w =
       match client_get (commands c) key w with
       | (inr v, w') => (inr v, w')
       | (inl _, w') => (inr None, w')
       end).
Proof.
  split.
  - intros ev Hdown.
    assert (Hd : isRedisConnected (module (notify s ev)) = false).
    { apply flag_down_disconnected. now destruct ev. }
    destruct (redis_facts.disconnected_sentinels
                (module (notify s ev)) key EmptyString None EmptyString w Hd)
      as (Hg & _ & Hdel & _ & He & Ht & Hi & _).
    auto.
  - intros ev c Hup Hc.
    assert (Hflag : connected (notify s ev) = true) by now destruct ev.
    unfold get, unavailable, isRedisConnected, call, module. simpl.
    unfold module in Hflag. simpl in Hflag. rewrite Hflag, Hc. simpl.
    unfold try_catch, ret.
    now destruct (client_get (commands c) key w) as [[e|v] w'].
Qed.

Lemma events_gate_operations_witness :
  get (module (notify {| client := Some up; connected := true |}
                 reconnecting_event)) "page:1" server.sample
    = (inr None, server.sample) /\
  get (module (notify {| client := Some up; connected := false |}
                 ready_event)) "page:1" server.sample
    = (inr (Some "p1"), server.sample).
Proof.
  destruct (events_gate_operations {| client := Some up; connected := true |}
              "page:1" server.sample) as [Hdown _].
  destruct (events_gate_operations {| client := Some up; connected := false |}
              "page:1" server.sample) as [_ Hup].
  destruct (Hdown reconnecting_event I) as [Hget _].
  split; [exact Hget | exact (Hup ready_event up I eq_refl)].
Defined.

(** X8.  With Redis disabled in the configuration, main() never calls
    initRedis: the service has no client, so whatever events arrive the
    health endpoint reports redis "disconnected" and status "degraded",
    also when the storage service is healthy, in which case the HTTP status
    code is still 200. *)
Theorem disabled_redis_is_degraded {W} (config : AppConfig)
    (createClient : ClientOptions -> JsError + Connection W) (w : W)
    (events : list ClientEvent) (healthy : bool) (date : string) :
  redisEnabled config = false ->
  let s := (main_redis config createClient w).1 in
  (main_redis config createClient w).2 = w /\
  health.redis (health.health healthy (module (emit events s)) date).1
    = "disconnected" /\
  health.status (health.health healthy (module (emit events s)) date).1
    = "degraded" /\
  (health.health healthy (module (emit events s)) date).2
    = (if healthy then 200 else 503).
Proof.
  intros Hoff s. unfold s, main_redis. rewrite Hoff. simpl.
  split; [reflexivity |].
  assert (Hd : isRedisConnected (module (emit events (initial (W:=W)))) = false).
  { apply clientless_disconnected. now rewrite emit_client. }
  unfold health.health. simpl. rewrite Hd, andb_false_r. auto.
Qed.

Lemma disabled_redis_is_degraded_witness :
  health.status
    (health.health true
       (module (emit [ready_event]
          (main_redis
             {| redisHost := "localhost"; redisPort := 6379;
                redisPassword := None; redisDb := None;
                redisEnabled := false |}
             (fun _ => inr up) server.sample).1))
       "2026-02-09T19:30:00.000Z").1 = "degraded".
Proof.
  destruct (disabled_redis_is_degraded
              {| redisHost := "localhost"; redisPort := 6379;
                 redisPassword := None; redisDb := None;
                 redisEnabled := false |}
              (fun _ => inr up) server.sample [ready_event] true
              "2026-02-09T19:30:00.000Z" eq_refl) as (_ & _ & Hstatus & _).
  exact Hstatus.
Defined.

End lifecycle_facts.

(* ===================================================================== *)
(** * Further properties of the cache operations and of the strategy *)
(* ===================================================================== *)

Module cache_facts.
Import redis server.

Lemma connected_available {W} (m : Module W) c :
  redisClient m = Some c -> isConnected m = true -> unavailable m = false.
Proof.
  intros Hc Hi. unfold unavailable, isRedisConnected. now rewrite Hc, Hi.
Qed.

Lemma del_ready key s :
  del ready key s =
    (inr true,
     {| keyspace := delete key (keyspace s); now := now s |}).
Proof.
  unfold del. rewrite server_facts.ready_available.
  unfold try_catch, bind, call, ret. simpl. unfold DEL. simpl.
  reflexivity.
Qed.

(** X9.  del reports that the command went through, not that a key was
    removed: whenever the client call returns, with any reply count, del
    returns true.  In front of a live server it returns true for every
    key, present or not; afterwards the key is absent and every other
    entry is as before. *)
Theorem del_reports_success {W} (m : Module W) (key : string) :
  (forall c w n w',
     redisClient m = Some c -> isConnected m = true ->
     client_del c [key] w = (inr n, w') ->
     del m key w = (inr true, w')) /\
  (forall s,
     exists s',
       del ready key s = (inr true, s') /\
       lookupKey s' key = None /\
       now s' = now s /\
       forall k, k <> key -> keyspace s' !! k = keyspace s !! k).
Proof.
  split.
  - intros c w n w' Hc Hi Hd. unfold del.
    rewrite (connected_available m c Hc Hi).
    unfold call. rewrite Hc. unfold try_catch, bind, ret. now rewrite Hd.
  - intros s. eexists. split; [apply del_ready |].
    split; [| split; [reflexivity |]].
    + unfold lookupKey. simpl. now rewrite lookup_delete_eq.
    + intros k Hk. simpl. now apply lookup_delete_ne.
Qed.

Lemma del_reports_success_witness :
  del ready "page:3" sample =
    (inr true, {| keyspace := delete "page:3" (keyspace sample);
                  now := now sample |}) /\
  lookupKey sample "page:3" = None.
Proof.
  destruct (del_reports_success ready "page:3") as [Hany _].
  split; [| reflexivity].
  apply (Hany client sample 0
           {| keyspace := delete "page:3" (keyspace sample);
              now := now sample |}); reflexivity.
Defined.

Lemma exists_ready key s :
  exists_ ready key s =
    (inr match lookupKey s key with
         | Some _ => true
         | None => false
         end, s).
Proof.
  unfold exists_. rewrite server_facts.ready_available.
  unfold try_catch, bind, call, ret. simpl. unfold EXISTS.
  now destruct (lookupKey s key).
Qed.

(** X10.  In front of a live server exists and get agree: exists returns
    true exactly when get returns a value, false exactly when get returns
    null, and neither changes the store. *)
Theorem exists_agrees_with_get (key : string) (s : Server) :
  (exists_ ready key s = (inr true, s) <->
   exists v, get ready key s = (inr (Some v), s)) /\
  (exists_ ready key s = (inr false, s) <->
   get ready key s = (inr None, s)).
Proof.
  rewrite server_facts.get_ready, exists_ready. destruct (lookupKey s key) as [e|]; simpl; split; split;
    try discriminate; try reflexivity; eauto.
  - intros [v Hv]. discriminate.
Qed.

(** X11.  A TTL other than 0 is handed to SETEX as it is, negative values
    included, and SET is not called: set returns true when SETEX replies
    and false when it throws.  A live server rejects a negative TTL, so
    set then returns false and stores nothing. *)
Theorem set_nonzero_ttl_uses_setEx (key value : string) (t : Z) :
  t <> 0 ->
  (forall W (m : Module W) c w,
     redisClient m = Some c -> isConnected m = true ->
     set m key value (Some t) w =
       match client_setEx c key t value w with
       | (inr _, w') => (inr true, w')
       | (inl _, w') => (inr false, w')
       end) /\
  (t < 0 -> forall s, set ready key value (Some t) s = (inr false, s)).
Proof.
  intros Ht.
  assert (Htruthy : truthy (Some t) = true).
  { simpl. now destruct (Z.eqb_spec t 0). }
  split.
  - intros W m c w Hc Hi. unfold set.
    rewrite (connected_available m c Hc Hi), Htruthy.
    unfold call. rewrite Hc. unfold try_catch, bind, ret. simpl.
    now destruct (client_setEx c key t value w) as [[e|r] w'].
  - intros Hneg s. unfold set.
    rewrite server_facts.ready_available, Htruthy.
    unfold try_catch, bind, call, ret. simpl. unfold SETEX.
    destruct (Z.leb_spec t 0); [reflexivity | lia].
Qed.

Lemma set_nonzero_ttl_uses_setEx_witness :
  set stale "k" "v" (Some (-5)) tt = (inr false, tt) /\
  set ready "k" "v" (Some (-5)) sample = (inr false, sample).
Proof.
  destruct (set_nonzero_ttl_uses_setEx "k" "v" (-5)) as [Hpath Hneg];
    [discriminate |].
  split; [apply (Hpath unit stale closed_client tt); reflexivity |].
  apply Hneg. reflexivity.
Defined.

(** X12.  Expiry: once more than t seconds have passed since set(k, v, t)
    with t > 0, and nothing else wrote the key, get returns null, exists
    returns false and ttl returns -2. *)
Theorem set_expires (k v : string) (t : Z) (s : Server) (d : Z) :
  0 < t -> t * 1000 < d ->
  exists s1,
    set ready k v (Some t) s = (inr true, s1) /\
    get ready k (elapse d s1) = (inr None, elapse d s1) /\
    exists_ ready k (elapse d s1) = (inr false, elapse d s1) /\
    ttl ready k (elapse d s1) = (inr (-2), elapse d s1).
Proof.
  intros Ht Hd. eexists. split; [now apply server_facts.set_ready_expiring |].
  set (s1 := write s k _).
  assert (Hgone : lookupKey (elapse d s1) k = None).
  { unfold lookupKey, elapse, s1, write, expired. simpl.
    rewrite lookup_insert_eq. simpl.
    destruct (Z.ltb_spec (now s + t * 1000) (now s + d)); [reflexivity | lia]. }
  split; [now rewrite server_facts.get_ready, Hgone |].
  split; [now rewrite exists_ready, Hgone |].
  now rewrite server_facts.ttl_ready, Hgone.
Qed.

Lemma set_expires_witness :
  exists s1,
    set ready "k" "v" (Some 60) sample = (inr true, s1) /\
    get ready "k" (elapse 60001 s1) = (inr None, elapse 60001 s1) /\
    exists_ ready "k" (elapse 60001 s1) = (inr false, elapse 60001 s1) /\
    ttl ready "k" (elapse 60001 s1) = (inr (-2), elapse 60001 s1).
Proof.
  apply (set_expires "k" "v" 60 sample 60001); reflexivity.
Defined.

Lemma set_ready_cases key v ttlSeconds s :
  set ready key v ttlSeconds s = (inr false, s) \/
  exists e, set ready key v ttlSeconds s = (inr true, write s key e).
Proof.
  unfold set. rewrite server_facts.ready_available.
  unfold try_catch, bind, call, ret. simpl.
  destruct (truthy ttlSeconds); simpl; unfold SETEX, SET.
  - destruct (default 0 ttlSeconds <=? 0); [now left | right; eauto].
  - right; eauto.
Qed.

(** X13.  In front of a live server set touches only its own key: whether
    it succeeds or not, the entry of every other key and the clock are as
    before, so a get of another key returns what it returned before. *)
Theorem set_touches_only_its_key (key v : string) (ttlSeconds : option Z)
    (s : Server) (k : string) :
  k <> key ->
  keyspace (set ready key v ttlSeconds s).2 !! k = keyspace s !! k /\
  now (set ready key v ttlSeconds s).2 = now s /\
  (get ready k (set ready key v ttlSeconds s).2).1 = (get ready k s).1.
Proof.
  intros Hk.
  destruct (set_ready_cases key v ttlSeconds s) as [-> | [e ->]];
    [repeat split |].
  assert (Hl : <[key:=e]> (keyspace s) !! k = keyspace s !! k)
    by now apply lookup_insert_ne.
  split; [exact Hl |]. split; [reflexivity |].
  rewrite !server_facts.get_ready. unfold lookupKey, write.
  cbn [snd fst keyspace now]. now rewrite Hl.
Qed.

Lemma set_touches_only_its_key_witness :
  (get ready "page:1" (set ready "page:2" "new" (Some 30) sample).2).1
    = inr (Some "p1").
Proof.
  destruct (set_touches_only_its_key "page:2" "new" (Some 30) sample "page:1")
    as (_ & _ & Hget); [discriminate |].
  exact Hget.
Defined.

(** X14.  delPattern is idempotent in front of a live server: right after
    a delPattern, the same pattern matches nothing, a second call returns 0
    and leaves the store as it is. *)
Theorem delPattern_twice (pattern : string) (s : Server) :
  exists n s',
    delPattern ready pattern s = (inr n, s') /\
    (forall k, ~ matches s' pattern k) /\
    delPattern ready pattern s' = (inr 0, s').
Proof.
  eexists _, _. split; [apply server_facts.delPattern_ready |].
  set (s' := {| keyspace := _; now := _ |}).
  assert (Hnone : forall k, ~ matches s' pattern k).
  { intros k [[e He] Hm].
    rewrite (server_facts.lookupKey_delPattern pattern s s' _ k
               (server_facts.delPattern_ready pattern s)), Hm in He.
    discriminate He. }
  split; [exact Hnone |].
  rewrite server_facts.delPattern_ready.
  destruct (keys_reply s' pattern) as [|k ks] eqn:Hks.
  - reflexivity.
  - exfalso. apply (Hnone k), server_facts.keys_reply_matches.
    rewrite Hks. left.
Qed.

(** ** Patterns made of a literal prefix and a star *)

Lemma stringmatch_star k : stringmatch "*" k = true.
Proof.
  induction k as [|c k IH]; [reflexivity |].
  simpl in *. exact IH.
Qed.

Lemma stringmatch_literal_char c p s :
  patterns.special c = false ->
  stringmatch (String c p) s =
    match s with
    | EmptyString => false
    | String a s' => Ascii.eqb a c && stringmatch p s'
    end.
Proof.
  intros Hc.
  destruct c as [[] [] [] [] [] [] [] []];
    first [discriminate Hc | reflexivity].
Qed.

Lemma stringmatch_prefix p k :
  patterns.literal p = true ->
  stringmatch (p ++ "*") k = String.prefix p k.
Proof.
  revert k. induction p as [|c p IH]; intros k Hp.
  - simpl String.append. rewrite stringmatch_star. now destruct k.
  - simpl in Hp. apply andb_true_iff in Hp as [Hc Hp].
    apply negb_true_iff in Hc.
    change (String c p ++ "*")%string with (String c (p ++ "*")).
    rewrite stringmatch_literal_char by assumption.
    destruct k as [|a k]; [reflexivity |].
    rewrite IH by assumption. simpl.
    destruct (ascii_dec c a) as [->|Hne].
    + now rewrite Ascii.eqb_refl.
    + destruct (Ascii.eqb_spec a c) as [->|_]; [contradiction | reflexivity].
Qed.

(** X15.  For a literal prefix (no glob character in it),
    delPattern(prefix + "*") in front of a live server removes exactly the
    visible keys that start with the prefix and returns how many they
    are; keys that do not start with it keep their entries.  With the
    empty prefix the pattern is "*" and every visible key goes. *)
Theorem delPattern_prefix (prefix : string) (s : Server) :
  patterns.literal prefix = true ->
  exists (keys : list string) (s' : Server),
    delPattern ready (prefix ++ "*") s = (inr (Z.of_nat (length keys)), s') /\
    NoDup keys /\
    (forall k, k ∈ keys <->
               is_Some (lookupKey s k) /\ String.prefix prefix k = true) /\
    (forall k, lookupKey s' k =
               if String.prefix prefix k then None else lookupKey s k) /\
    (forall k, String.prefix prefix k = false ->
               keyspace s' !! k = keyspace s !! k).
Proof.
  intros Hp. eexists _, _.
  split; [apply server_facts.delPattern_ready |].
  split; [apply server_facts.keys_reply_NoDup |].
  split; [| split].
  - intros k. rewrite server_facts.keys_reply_matches. unfold matches.
    now rewrite stringmatch_prefix.
  - intros k. rewrite <- stringmatch_prefix by assumption.
    eapply server_facts.lookupKey_delPattern, server_facts.delPattern_ready.
  - intros k Hk. simpl. rewrite server_facts.del_keys_lookup.
    rewrite decide_False; [reflexivity |].
    rewrite server_facts.keys_reply_matches. unfold matches.
    rewrite stringmatch_prefix, Hk by assumption. now intros [_ ?].
Qed.

Lemma delPattern_prefix_witness :
  exists keys s',
    delPattern ready "page:*" sample = (inr (Z.of_nat (length keys)), s') /\
    NoDup keys /\
    (forall k, k ∈ keys <->
               is_Some (lookupKey sample k) /\ String.prefix "page:" k = true) /\
    (forall k, lookupKey s' k =
               if String.prefix "page:" k then None else lookupKey sample k) /\
    (forall k, String.prefix "page:" k = false ->
               keyspace s' !! k = keyspace sample !! k).
Proof.
  apply (delPattern_prefix "page:" sample). reflexivity.
Defined.

(** ** The reconnect strategy *)

(** X16.  The delays of the strategy for attempt numbers from 0 on lie
    between 0 and 3000 ms, never exceed 100 ms per attempt, grow with the
    attempt number, and reach the cap of 3000 ms exactly from attempt 30
    on; with maxRetries absent or 0 no delay exceeds 1000 ms, so the cap is
    never reached. *)
Theorem backoff_delays (cfg : RedisConfig) (n d : Z) :
  0 <= n ->
  reconnectStrategy cfg n = Delay d ->
  0 <= d <= 3000 /\
  d <= n * 100 /\
  (d = 3000 <-> 30 <= n) /\
  (forall n' d', n <= n' -> reconnectStrategy cfg n' = Delay d' -> d <= d') /\
  (maxRetries cfg = None \/ maxRetries cfg = Some 0 -> d <= 1000).
Proof.
  intros Hn Hd. unfold reconnectStrategy in *.
  destruct (Z.gtb_spec n (or_default (maxRetries cfg) 10)) as [|Hle];
    [discriminate |].
  injection Hd as <-. repeat split; try lia.
  - intros n' d' Hnn' Hd'.
    destruct (n' >? or_default (maxRetries cfg) 10); [discriminate |].
    injection Hd' as <-. lia.
  - intros Hdefault.
    assert (or_default (maxRetries cfg) 10 = 10) as Hten
      by (destruct Hdefault as [-> | ->]; reflexivity).
    lia.
Qed.

Lemma backoff_delays_witness :
  0 <= 700 <= 3000 /\ 700 <= 7 * 100 /\ 700 <= 1000.
Proof.
  destruct (backoff_delays default_config 7 700)
    as (Hb & Hper & _ & _ & Hdefault); [discriminate | reflexivity |].
  split; [exact Hb |]. split; [exact Hper | apply Hdefault; now left].
Defined.

(** X17.  A negative maxRetries is truthy and is taken as it is: every
    attempt number from 0 on is above it, so the strategy returns an error
    at once and the reconnect loop issues no reconnect attempt at all. *)
Theorem negative_maxRetries_never_retries (cfg : RedisConfig) (k : Z) :
  maxRetries cfg = Some k -> k < 0 ->
  (forall n, 0 <= n ->
             reconnectStrategy cfg n = Abandon (Error "Max retries exceeded")) /\
  (forall failures,
     reconnects cfg (S failures) 0 = ([], true)).
Proof.
  intros Hk Hneg.
  assert (Hmax : or_default (maxRetries cfg) 10 = k).
  { rewrite redis_facts.or_default_cases, Hk.
    destruct (Z.eqb_spec k 0); [lia | reflexivity]. }
  assert (Hs : forall n, 0 <= n ->
                 reconnectStrategy cfg n = Abandon (Error "Max retries exceeded")).
  { intros n Hn. apply redis_facts.reconnectStrategy_beyond. lia. }
  split; [exact Hs |].
  intros failures. simpl. now rewrite Hs.
Qed.

Lemma negative_maxRetries_never_retries_witness :
  reconnectStrategy (with_maxRetries default_config (Some (-1))) 0
    = Abandon (Error "Max retries exceeded") /\
  reconnects (with_maxRetries default_config (Some (-1))) 5 0 = ([], true).
Proof.
  destruct (negative_maxRetries_never_retries
              (with_maxRetries default_config (Some (-1))) (-1)
              eq_refl eq_refl) as [Hs Hloop].
  split; [apply Hs; discriminate | exact (Hloop 4%nat)].
Defined.

End cache_facts.


(* ===================================================================== *)
(** * Further properties of the audio error handler *)
(* ===================================================================== *)

Module audioErrorHandler_more.
Import audioErrorHandler.

(** ** The text operations behind the replacement *)

Lemma prefix_append (a b : string) : String.prefix a (a ++ b) = true.
Proof.
  induction a as [|c a IH]; simpl; [now destruct b |].
  destruct (ascii_dec c c); [exact IH | contradiction].
Qed.

Lemma substring_all (s : string) : substring 0 (String.length s) s = s.
Proof. induction s as [|c s IH]; simpl; [reflexivity | now rewrite IH]. Qed.

Lemma substring_after (a b : string) :
  substring (String.length a)
            (String.length (a ++ b) - String.length a) (a ++ b) = b.
Proof.
  induction a as [|c a IH]; simpl.
  - rewrite Nat.sub_0_r. apply substring_all.
  - exact IH.
Qed.

Lemma GetSubstitution_char m b a c r :
  Ascii.eqb c "$" = false ->
  js.GetSubstitution m b a (String c r) =
    String c (js.GetSubstitution m b a r).
Proof.
  intros Hc.
  destruct c as [[] [] [] [] [] [] [] []];
    first [discriminate Hc | reflexivity].
Qed.

Lemma GetSubstitution_plain m b a p :
  patterns.dollar_free p = true -> js.GetSubstitution m b a p = p.
Proof.
  induction p as [|c p IH]; intros Hp; [reflexivity |].
  simpl in Hp. apply andb_true_iff in Hp as [Hc Hp].
  apply negb_true_iff in Hc.
  rewrite GetSubstitution_char by assumption. now rewrite IH.
Qed.

Lemma replace_prefix (origin rest p : string) :
  patterns.dollar_free p = true ->
  js.replace (origin ++ rest) origin p = (p ++ rest)%string.
Proof.
  intros Hp. unfold js.replace.
  assert (Hs : js.split_first origin (origin ++ rest)
               = Some (EmptyString, rest)).
  { destruct origin as [|c origin].
    - simpl String.append. destruct rest as [|r rest]; simpl;
        rewrite ?Nat.sub_0_r, ?substring_all; reflexivity.
    - change (js.split_first (String c origin) (String c origin ++ rest))
        with (if String.prefix (String c origin) (String c origin ++ rest)
              then Some (EmptyString,
                         substring (String.length (String c origin))
                           (String.length (String c origin ++ rest)
                            - String.length (String c origin))
                           (String c origin ++ rest))
              else match js.split_first (String c origin) (origin ++ rest) with
                   | Some (before, after) => Some (String c before, after)
                   | None => None
                   end).
      now rewrite prefix_append, substring_after. }
  rewrite Hs, GetSubstitution_plain by assumption. reflexivity.
Qed.

Lemma length_append (a b : string) :
  String.length (a ++ b) = (String.length a + String.length b)%nat.
Proof. induction a as [|c a IH]; simpl; [reflexivity | now rewrite IH]. Qed.

Lemma append_inj_l (a b rest : string) :
  (a ++ rest)%string = (b ++ rest)%string -> a = b.
Proof.
  intros H.
  assert (Hlen : String.length a = String.length b).
  { apply (f_equal String.length) in H.
    rewrite !length_append in H. lia. }
  revert b H Hlen. induction a as [|c a IH]; intros [|d b] H Hlen;
    simpl in *; try discriminate; [reflexivity |].
  injection H as -> H. f_equal. apply IH; [assumption | lia].
Qed.

(** ** The branches of the handler *)

Ltac branches :=
  repeat match goal with
         | |- context [match ?x with _ => _ end] =>
             lazymatch x with
             | context [match _ with _ => _ end] => fail
             | _ => destruct x eqn:?
             end
         end.

(** X18.  Errors while prefetching are silent: with a non-empty prefetch
    argument the handler writes neither to the player store nor to the app
    store, whatever the element and the stores are. *)
Theorem prefetch_errors_are_silent
    (URL_origin : string -> option string) (st : State) (prefetch : string) :
  prefetch <> EmptyString ->
  playerStore (state_of (handler URL_origin st prefetch)) = playerStore st /\
  store (state_of (handler URL_origin st prefetch)) = store st.
Proof.
  intros Hp.
  assert (Hpe : String.eqb prefetch EmptyString = false)
    by now apply String.eqb_neq.
  unfold handler. cbn [setAudio audio playerStore store location_href].
  rewrite Hpe, andb_false_r.
  branches; split; reflexivity.
Qed.

Lemma prefetch_errors_are_silent_witness :
  playerStore (state_of (handler origins
                 (playing "https://cdn.example/a.mp3" (Some "true"))
                 "dQw4w9WgXcQ"))
    = playerStore (playing "https://cdn.example/a.mp3" (Some "true")).
Proof.
  destruct (prefetch_errors_are_silent origins
              (playing "https://cdn.example/a.mp3" (Some "true"))
              "dQw4w9WgXcQ") as [Hplayer _]; [discriminate |].
  exact Hplayer.
Defined.

(** X19.  A failing fallback stream (a src ending in "&fallback" that
    passes the first guard and parses) is never retried through the proxy:
    the element is only paused.  When the player is not watching and the
    call is not a prefetch, the snackbar shows the 403 message and
    playbackState becomes "none" while status is left alone; otherwise no
    store is written. *)
Theorem fallback_stream_is_not_retried
    (URL_origin : string -> option string) (st : State) (prefetch : string) :
  src (audio st) <> EmptyString ->
  src (audio st) <> location_href st ->
  is_Some (URL_origin (src (audio st))) ->
  js.endsWith (src (audio st)) "&fallback" = true ->
  let st' := state_of (handler URL_origin st prefetch) in
  audio st' = pause (audio st) /\
  status (playerStore st') = status (playerStore st) /\
  (isWatching (playerStore st) = false -> prefetch = EmptyString ->
   snackbar (store st') = Some "Error 403 : Unauthenticated Stream" /\
   playbackState (playerStore st') = "none") /\
  (isWatching (playerStore st) = true \/ prefetch <> EmptyString ->
   playerStore st' = playerStore st /\ store st' = store st).
Proof.
  intros He Hl [origin Ho] Hf st'. unfold st', handler.
  cbn [setAudio audio playerStore store location_href pause src].
  destruct (String.eqb_spec (src (audio st)) EmptyString); [contradiction |].
  destruct (String.eqb_spec (src (audio st)) (location_href st));
    [contradiction |].
  cbn [orb]. rewrite Ho, Hf.
  split; [now destruct (_ && _) |].
  split; [now destruct (_ && _) |].
  split.
  - intros -> ->. simpl. split; reflexivity.
  - intros [-> | Hp]; cbn [negb andb]; [split; reflexivity |].
    apply String.eqb_neq in Hp. rewrite Hp, andb_false_r.
    split; reflexivity.
Qed.

Lemma fallback_stream_is_not_retried_witness :
  audio fallback_error =
    pause (audio (playing "https://cdn.example/a.mp3&fallback" (Some "true"))) /\
  src (audio (state_of (handler origins
                 (playing "https://cdn.example/a.mp3&fallback" None)
                 EmptyString)))
    = "https://cdn.example/a.mp3&fallback".
Proof.
  destruct (fallback_stream_is_not_retried origins
              (playing "https://cdn.example/a.mp3&fallback" (Some "true"))
              EmptyString) as (Ha & _);
    [discriminate | discriminate | eexists; reflexivity | reflexivity |].
  destruct (fallback_stream_is_not_retried origins
              (playing "https://cdn.example/a.mp3&fallback" None)
              EmptyString) as (Hb & _);
    [discriminate | discriminate | eexists; reflexivity | reflexivity |].
  split; [exact Ha | exact (f_equal src Hb)].
Defined.





(** X22.  The retry keeps path and query.  For a src made of its origin
    followed by the rest of the URL, a configured proxy without a dollar
    sign that differs from the origin, and an element not yet retried whose
    src passes the guards, the handler returns with the src replaced by the
    proxy followed by the same rest and the element marked retried; no
    store is written, also when the call is not a prefetch. *)
Theorem retry_keeps_path
    (URL_origin : string -> option string) (st : State)
    (prefetch origin rest p : string) :
  src (audio st) = (origin ++ rest)%string ->
  URL_origin (src (audio st)) = Some origin ->
  proxy (playerStore st) = Some p ->
  p <> EmptyString ->
  patterns.dollar_free p = true ->
  origin <> p ->
  retried (audio st) <> Some "true" ->
  src (audio st) <> EmptyString ->
  src (audio st) <> location_href st ->
  js.endsWith (src (audio st)) "&fallback" = false ->
  handler URL_origin st prefetch =
    Returns (setAudio {| src := (p ++ rest)%string;
                         paused := true;
                         retried := Some "true" |} st).
Proof.
  intros Hsrc Ho Hp Hpe Hdollar Hop Hr He Hl Hf. unfold handler.
  cbn [setAudio audio playerStore store location_href pause src paused
       retried].
  destruct (String.eqb_spec (src (audio st)) EmptyString); [contradiction |].
  destruct (String.eqb_spec (src (audio st)) (location_href st));
    [contradiction |].
  cbn [orb]. rewrite Ho, Hf, Hp. cbn [js.truthy].
  change (default EmptyString (Some p)) with p.
  destruct (String.eqb_spec p EmptyString); [contradiction |].
  rewrite bool_decide_eq_false_2 by congruence.
  rewrite bool_decide_eq_false_2 by assumption.
  cbn [negb orb]. rewrite Hsrc, replace_prefix by assumption.
  destruct (String.eqb_spec (p ++ rest) (origin ++ rest)) as [Heq|_].
  - apply append_inj_l in Heq. congruence.
  - reflexivity.
Qed.

Lemma retry_keeps_path_witness :
  handler origins (playing "https://cdn.example/a.mp3" None) EmptyString =
    Returns (setAudio {| src := "https://proxy.example/a.mp3";
                         paused := true;
                         retried := Some "true" |}
               (playing "https://cdn.example/a.mp3" None)).
Proof.
  apply (retry_keeps_path origins (playing "https://cdn.example/a.mp3" None)
           EmptyString "https://cdn.example" "/a.mp3" "https://proxy.example");
    first [reflexivity | discriminate].
Defined.

End audioErrorHandler_more.
